(** * Order-book synchronisation and aggregation (services/marketService.ts)

    A shallow embedding of [aggregateOrders] and of the closure built by
    [subscribeToBinanceStream]: the two price maps, the event buffer, the
    snapshot handler, the message handler, the animation-frame throttle and
    [emitUpdate].

    Numbers.  A JavaScript [number] is a double; it is modelled by the
    rational [Q] that is its exact value, and two numbers are the same
    number when they are [==].  A decimal of the source or of the wire,
    such as 2.3, stands for the double [fl 2.3] that [parseFloat] gives,
    where [fl] rounds a rational to the nearest double.  In
    [aggregateOrders], where the rounding of a difference decides the
    bucket of a level and where the sums depend on the order of the
    additions, every operation is followed by [fl], as in the code.  The
    other expressions (bucket prices, the mid price, the mock generator,
    the coordinates of the scene) are written with exact arithmetic: their
    values are those of the code up to the rounding of the last digit.
    NaN, signed zero, overflow and underflow are outside the model; the
    one use of [Infinity] in the source (the seed of the best-ask scan) is
    modelled by [xnum].  Update ids are integers ([Z]). *)

From Stdlib Require Import List Bool ZArith QArith Qabs Qround Qminmax.
From Stdlib Require Import Qpower Qreduction Lia Lqa.
Import ListNotations.

Local Open Scope Q_scope.

(** ** Configuration *)

Definition AGGREGATION_BUCKET_SIZE : Q := 2.
Definition VISUAL_BUCKETS : nat := 60.

(** ** types.ts *)

Record OrderEntry : Type := mkOrderEntry
  { price : Q;
    quantity : Q;
    total : Q }.

Record OrderBookSnapshot : Type := mkOrderBookSnapshot
  { timestamp : Z;
    midPrice : Q;
    bids : list OrderEntry;
    asks : list OrderEntry }.

(** ** [Map<number, number>]

    A JavaScript [Map] iterates in insertion order: [set] on a present key
    replaces the value where the key stands, [set] on an absent key appends,
    [delete] takes the entry out.  An association list with these three
    operations keeps exactly that order. *)

Module JsMap.

Definition t : Type := list (Q * Q).

Definition empty : t := [].

Fixpoint get (k : Q) (m : t) : option Q :=
  match m with
  | [] => None
  | (k', v') :: r => if Qeq_bool k' k then Some v' else get k r
  end.

Fixpoint set (k v : Q) (m : t) : t :=
  match m with
  | [] => [(k, v)]
  | (k', v') :: r =>
      if Qeq_bool k' k then (k', v) :: r else (k', v') :: set k v r
  end.

Fixpoint delete (k : Q) (m : t) : t :=
  match m with
  | [] => []
  | (k', v') :: r =>
      if Qeq_bool k' k then r else (k', v') :: delete k r
  end.

Definition size (m : t) : nat := length m.

Definition keys (m : t) : list Q := map fst m.

(** No key occurs twice (as a number). *)
Fixpoint wf (m : t) : Prop :=
  match m with
  | [] => True
  | (k, _) :: r => get k r = None /\ wf r
  end.

(** Two maps hold the same entries, whatever their insertion order. *)
Definition equiv (m1 m2 : t) : Prop := forall k, get k m1 = get k m2.

End JsMap.

(** ** Doubles

    [fl x] is the double nearest to [x]: 53 significant bits, a tie going to
    the even mantissa.  The exponent is not bounded. *)

Definition pow2 (e : Z) : Q := 2 ^ e.

(** The binary exponent of a positive number: [2^e <= x < 2^(e+1)]. *)
Definition ilog2 (x : Q) : Z :=
  let x' := Qred x in
  let e0 := (Z.log2 (Qnum x') - Z.log2 (Zpos (Qden x')))%Z in
  if Qle_bool (pow2 e0) x' then e0 else (e0 - 1)%Z.

(** The nearest integer, a tie going to the even one. *)
Definition rne (x : Q) : Z :=
  let f := Qfloor x in
  match Qcompare (x - inject_Z f) (1 # 2) with
  | Lt => f
  | Gt => (f + 1)%Z
  | Eq => if Z.even f then f else (f + 1)%Z
  end.

Definition flpos (x : Q) : Q :=
  let ulp := pow2 (ilog2 x - 52) in
  inject_Z (rne (x / ulp)) * ulp.

Definition fl (x : Q) : Q :=
  match Qcompare x 0 with
  | Eq => 0
  | Gt => flpos x
  | Lt => - flpos (- x)
  end.

(** ** [aggregateOrders] *)

(** [bucketVolumes[index] += qty] on the dense array. *)
Fixpoint add_at (i : nat) (qty : Q) (bv : list Q) : list Q :=
  match bv, i with
  | [], _ => []
  | x :: r, O => fl (x + qty) :: r
  | x :: r, S i' => x :: add_at i' qty r
  end.

(** [Math.floor(Math.abs(price - midPrice) / AGGREGATION_BUCKET_SIZE)]. *)
Definition bucketIndex (price midPrice : Q) : Z :=
  let diff := Qabs (fl (price - midPrice)) in
  Qfloor (fl (diff / AGGREGATION_BUCKET_SIZE)).

Definition inRange (index : Z) : bool :=
  (0 <=? index)%Z && (index <? Z.of_nat VISUAL_BUCKETS)%Z.

(** One turn of the loop over [rawOrders]. *)
Definition distribute (midPrice : Q) (bucketVolumes : list Q) (level : Q * Q)
  : list Q :=
  let '(price, qty) := level in
  let index := bucketIndex price midPrice in
  if inRange index then add_at (Z.to_nat index) qty bucketVolumes
  else bucketVolumes.

Definition bucketVolumesOf (rawOrders : JsMap.t) (midPrice : Q) : list Q :=
  fold_left (distribute midPrice) rawOrders (repeat 0 VISUAL_BUCKETS).

(** [midPrice - (i * AGGREGATION_BUCKET_SIZE)] or its mirror, in exact
    arithmetic. *)
Definition bucketPrice (isBid : bool) (midPrice : Q) (i : nat) : Q :=
  if isBid
  then midPrice - (inject_Z (Z.of_nat i) * AGGREGATION_BUCKET_SIZE)
  else midPrice + (inject_Z (Z.of_nat i) * AGGREGATION_BUCKET_SIZE).

(** The loop [for (let i = 0; i < VISUAL_BUCKETS; i++)]: [n] turns are left,
    [i] is the loop counter and [cumulativeTotal] the running sum. *)
Fixpoint buildResult (bucketVolumes : list Q) (isBid : bool) (midPrice : Q)
  (n i : nat) (cumulativeTotal : Q) : list OrderEntry :=
  match n with
  | O => []
  | S n' =>
      let qty := nth i bucketVolumes 0 in
      let cumulativeTotal' := fl (cumulativeTotal + qty) in
      {| price := bucketPrice isBid midPrice i;
         quantity := qty;
         total := cumulativeTotal' |}
      :: buildResult bucketVolumes isBid midPrice n' (S i) cumulativeTotal'
  end.

Definition aggregateOrders (rawOrders : JsMap.t) (isBid : bool) (midPrice : Q)
  : list OrderEntry :=
  buildResult (bucketVolumesOf rawOrders midPrice) isBid midPrice
    VISUAL_BUCKETS 0%nat 0.

(** ** Wire formats *)

(** A pair [[price, qty]] after [parseFloat] on both strings. *)
Definition Level : Type := (Q * Q)%type.

(** A [depthUpdate] message of the stream.  [b] and [a] may be missing
    (the handler tests [if (e.b)] and [if (e.a)]). *)
Module DepthUpdate.
Record t : Type := mk
  { U : Z;
    u : Z;
    b : option (list Level);
    a : option (list Level) }.
End DepthUpdate.

(** The REST depth snapshot. *)
Module Depth.
Record t : Type := mk
  { lastUpdateId : Z;
    bids : list Level;
    asks : list Level }.
End Depth.

(** What [res.json()] resolves to when the answer is some other JSON object
    (the body of an HTTP error, for one): a field that the object lacks
    reads [undefined]. *)
Module DepthBody.
Record t : Type := mk
  { lastUpdateId : option Z;
    bids : option (list Level);
    asks : option (list Level) }.
End DepthBody.

(** What [JSON.parse(event.data)] gives the message handler: a
    [depthUpdate], or anything else (another event type, or text that does
    not parse, which the [catch] logs). *)
Inductive Message : Type :=
  | DepthUpdateMsg (data : DepthUpdate.t)
  | OtherMsg.

(** ** The closure of [subscribeToBinanceStream]

    The six variables of the closure, and the two things it does to the
    outside: [animationFrames] counts the callbacks handed to
    [requestAnimationFrame] that have not run yet, [delivered] lists the
    arguments of the calls of [onUpdate], oldest first. *)

Record Subscription : Type := mkSubscription
  { bidMap : JsMap.t;
    askMap : JsMap.t;
    eventBuffer : list DepthUpdate.t;
    hasSnapshot : bool;
    lastUpdateId : option Z;
    processing : bool;
    animationFrames : nat;
    delivered : list OrderBookSnapshot }.

Definition subscribe : Subscription :=
  {| bidMap := JsMap.empty;
     askMap := JsMap.empty;
     eventBuffer := [];
     hasSnapshot := false;
     lastUpdateId := Some 0%Z;
     processing := false;
     animationFrames := 0%nat;
     delivered := [] |}.

Definition with_maps (bm am : JsMap.t) (s : Subscription) : Subscription :=
  {| bidMap := bm;
     askMap := am;
     eventBuffer := eventBuffer s;
     hasSnapshot := hasSnapshot s;
     lastUpdateId := lastUpdateId s;
     processing := processing s;
     animationFrames := animationFrames s;
     delivered := delivered s |}.

(** *** [processEvent] *)

(** [if (qty === 0) map.delete(price); else map.set(price, qty);] *)
Definition applyLevel (m : JsMap.t) (level : Level) : JsMap.t :=
  let '(price, qty) := level in
  if Qeq_bool qty 0 then JsMap.delete price m else JsMap.set price qty m.

Definition applyLevels (changes : option (list Level)) (m : JsMap.t)
  : JsMap.t :=
  match changes with
  | Some ls => fold_left applyLevel ls m
  | None => m
  end.

Definition processEvent (s : Subscription) (e : DepthUpdate.t)
  : Subscription :=
  with_maps (applyLevels (DepthUpdate.b e) (bidMap s))
            (applyLevels (DepthUpdate.a e) (askMap s)) s.

(** *** [fetchSnapshot], from the point where [res.json()] has resolved *)

Definition loadLevels (items : list Level) (m : JsMap.t) : JsMap.t :=
  fold_left (fun m' (item : Level) => JsMap.set (fst item) (snd item) m')
    items m.

Definition fetchSnapshot (data : Depth.t) (s : Subscription) : Subscription :=
  let lastUpdateId' := Depth.lastUpdateId data in
  let s1 :=
    {| bidMap := loadLevels (Depth.bids data) (bidMap s);
       askMap := loadLevels (Depth.asks data) (askMap s);
       eventBuffer := eventBuffer s;
       hasSnapshot := true;
       lastUpdateId := Some lastUpdateId';
       processing := processing s;
       animationFrames := animationFrames s;
       delivered := delivered s |} in
  let validEvents :=
    filter (fun e => (lastUpdateId' <? DepthUpdate.u e)%Z) (eventBuffer s1) in
  let s2 := fold_left processEvent validEvents s1 in
  {| bidMap := bidMap s2;
     askMap := askMap s2;
     eventBuffer := [];
     hasSnapshot := hasSnapshot s2;
     lastUpdateId := lastUpdateId s2;
     processing := processing s2;
     animationFrames := animationFrames s2;
     delivered := delivered s2 |}.

(** [e.u > lastUpdateId], which is false when [lastUpdateId] is
    [undefined]. *)
Definition newerThan (lastUpdateId : option Z) (e : DepthUpdate.t) : bool :=
  match lastUpdateId with
  | Some n => (n <? DepthUpdate.u e)%Z
  | None => false
  end.

(** [fetchSnapshot] on any body.  [lastUpdateId] is assigned first;
    [data.bids.forEach] throws when [bids] is missing, and
    [data.asks.forEach] when [asks] is, after the bids have gone into
    [bidMap]; the [catch] logs the error and the function ends there. *)
Definition fetchSnapshotBody (data : DepthBody.t) (s : Subscription)
  : Subscription :=
  let s0 :=
    {| bidMap := bidMap s;
       askMap := askMap s;
       eventBuffer := eventBuffer s;
       hasSnapshot := hasSnapshot s;
       lastUpdateId := DepthBody.lastUpdateId data;
       processing := processing s;
       animationFrames := animationFrames s;
       delivered := delivered s |} in
  match DepthBody.bids data with
  | None => s0
  | Some bids' =>
      let s1 := with_maps (loadLevels bids' (bidMap s0)) (askMap s0) s0 in
      match DepthBody.asks data with
      | None => s1
      | Some asks' =>
          let s2 :=
            {| bidMap := bidMap s1;
               askMap := loadLevels asks' (askMap s1);
               eventBuffer := eventBuffer s1;
               hasSnapshot := true;
               lastUpdateId := lastUpdateId s1;
               processing := processing s1;
               animationFrames := animationFrames s1;
               delivered := delivered s1 |} in
          let validEvents :=
            filter (newerThan (lastUpdateId s2)) (eventBuffer s2) in
          let s3 := fold_left processEvent validEvents s2 in
          {| bidMap := bidMap s3;
             askMap := askMap s3;
             eventBuffer := [];
             hasSnapshot := hasSnapshot s3;
             lastUpdateId := lastUpdateId s3;
             processing := processing s3;
             animationFrames := animationFrames s3;
             delivered := delivered s3 |}
      end
  end.

(** *** [ws.onmessage] *)

Definition onmessage (msg : Message) (s : Subscription) : Subscription :=
  match msg with
  | DepthUpdateMsg data =>
      if negb (hasSnapshot s) then
        {| bidMap := bidMap s;
           askMap := askMap s;
           eventBuffer := eventBuffer s ++ [data];
           hasSnapshot := hasSnapshot s;
           lastUpdateId := lastUpdateId s;
           processing := processing s;
           animationFrames := animationFrames s;
           delivered := delivered s |}
      else
        let s1 := processEvent s data in
        if negb (processing s1) then
          {| bidMap := bidMap s1;
             askMap := askMap s1;
             eventBuffer := eventBuffer s1;
             hasSnapshot := hasSnapshot s1;
             lastUpdateId := lastUpdateId s1;
             processing := true;
             animationFrames := S (animationFrames s1);
             delivered := delivered s1 |}
        else s1
  | OtherMsg => s
  end.

(** *** [emitUpdate] *)

(** The value of [bestAsk]: a number, or the [Infinity] it starts from. *)
Inductive xnum : Type :=
  | Fin (q : Q)
  | Infinity.

(** [k > bestBid] *)
Definition Qgt_bool (x y : Q) : bool := negb (Qle_bool x y).

(** [k < bestAsk] *)
Definition ltx_bool (k : Q) (bestAsk : xnum) : bool :=
  match bestAsk with
  | Fin q => negb (Qle_bool q k)
  | Infinity => true
  end.

(** [if (k > bestBid) bestBid = k;] *)
Definition bidTurn (bestBid k : Q) : Q :=
  if Qgt_bool k bestBid then k else bestBid.

(** [if (k < bestAsk) bestAsk = k;] *)
Definition askTurn (bestAsk : xnum) (k : Q) : xnum :=
  if ltx_bool k bestAsk then Fin k else bestAsk.

(** [let bestBid = 0; for (const k of bidMap.keys()) ...] *)
Definition scanBestBid (m : JsMap.t) : Q :=
  fold_left bidTurn (JsMap.keys m) 0.

(** [let bestAsk = Infinity; for (const k of askMap.keys()) ...] *)
Definition scanBestAsk (m : JsMap.t) : xnum :=
  fold_left askTurn (JsMap.keys m) Infinity.

(** [emitUpdate] either returns early or calls [onUpdate] with a snapshot;
    [now] is the value [Date.now()] has at that time. *)
Definition emitUpdate (now : Z) (bm am : JsMap.t) : option OrderBookSnapshot :=
  if (JsMap.size bm =? 0)%nat || (JsMap.size am =? 0)%nat then None
  else
    let bestBid := scanBestBid bm in
    match scanBestAsk am with
    | Infinity => None
    | Fin bestAsk =>
        if Qeq_bool bestBid 0 then None
        else
          let midPrice := (bestBid + bestAsk) / 2 in
          Some {| timestamp := now;
                  midPrice := midPrice;
                  bids := aggregateOrders bm true midPrice;
                  asks := aggregateOrders am false midPrice |}
    end.

(** The callback given to [requestAnimationFrame]:
    [emitUpdate(); processing = false]. *)
Definition frameCallback (now : Z) (s : Subscription) : Subscription :=
  {| bidMap := bidMap s;
     askMap := askMap s;
     eventBuffer := eventBuffer s;
     hasSnapshot := hasSnapshot s;
     lastUpdateId := lastUpdateId s;
     processing := false;
     animationFrames := animationFrames s;
     delivered :=
       match emitUpdate now (bidMap s) (askMap s) with
       | Some snapshot => delivered s ++ [snapshot]
       | None => delivered s
       end |}.

Fixpoint runCallbacks (n : nat) (now : Z) (s : Subscription) : Subscription :=
  match n with
  | O => s
  | S n' => runCallbacks n' now (frameCallback now s)
  end.

(** A display tick: the browser runs every callback queued so far. *)
Definition animationFrame (now : Z) (s : Subscription) : Subscription :=
  runCallbacks (animationFrames s) now
    {| bidMap := bidMap s;
       askMap := askMap s;
       eventBuffer := eventBuffer s;
       hasSnapshot := hasSnapshot s;
       lastUpdateId := lastUpdateId s;
       processing := processing s;
       animationFrames := 0;
       delivered := delivered s |}.

(** *** What can happen to a subscription *)

(** The request of [fetchSnapshot] ends in one of three ways: with the
    depth snapshot; with some other JSON object; or with [fetch] or
    [res.json()] rejecting (also: a body that is not an object), where the
    [catch] is reached before anything is assigned. *)
Inductive Input : Type :=
  | WsMessage (msg : Message)
  | SnapshotArrived (data : Depth.t)
  | SnapshotBody (data : DepthBody.t)
  | SnapshotFailed
  | AnimationFrame (now : Z).

Definition step (s : Subscription) (i : Input) : Subscription :=
  match i with
  | WsMessage msg => onmessage msg s
  | SnapshotArrived data => fetchSnapshot data s
  | SnapshotBody data => fetchSnapshotBody data s
  | SnapshotFailed => s
  | AnimationFrame now => animationFrame now s
  end.

Definition run (s : Subscription) (inputs : list Input) : Subscription :=
  fold_left step inputs s.

(** * Vocabulary of the statements *)

(** What [+=] makes of a list of quantities, added one after the other to
    [start]. *)
Definition fsum (l : list Q) (start : Q) : Q :=
  fold_left (fun acc q => fl (acc + q)) l start.

(** The levels of a map that fall into bucket [i] around [anchor]. *)
Definition levelsAt (anchor : Q) (i : nat) (m : JsMap.t) : JsMap.t :=
  filter (fun l : Q * Q => (bucketIndex (fst l) anchor =? Z.of_nat i)%Z) m.

(** What the distribution loop leaves in bucket [i]: the quantities of the
    levels of that index, added one after the other from 0. *)
Definition bucketVolume (anchor : Q) (m : JsMap.t) (i : nat) : Q :=
  fsum (map snd (levelsAt anchor i m)) 0.

Definition noEntry : OrderEntry := {| price := 0; quantity := 0; total := 0 |}.

(** The running totals never go down from one bucket to the next. *)
Definition cumulativeMonotone (result : list OrderEntry) : Prop :=
  forall i : nat, (1 <= i < length result)%nat ->
    total (nth (i - 1) result noEntry) <= total (nth i result noEntry).

(** Two subscriptions hold the same book. *)
Definition sameStore (s1 s2 : Subscription) : Prop :=
  JsMap.equiv (bidMap s1) (bidMap s2) /\ JsMap.equiv (askMap s1) (askMap s2).

(** What a list of changes does to the entry of one price [k], given the
    entry [cur] it starts from: every change to [k] overrides what was
    there, a zero quantity leaving nothing. *)
Definition overlay (k : Q) (changes : list Level) (cur : option Q)
  : option Q :=
  fold_left
    (fun (c : option Q) (l : Level) =>
       if Qeq_bool (fst l) k
       then (if Qeq_bool (snd l) 0 then None else Some (snd l))
       else c)
    changes cur.

(** No change of the list is about price [k]. *)
Definition untouched (k : Q) (changes : list Level) : Prop :=
  forall l, In l changes -> Qeq_bool (fst l) k = false.

(** [k] is the greatest, resp. the least, key of the map. *)
Definition isMaxKey (m : JsMap.t) (k : Q) : Prop :=
  In k (JsMap.keys m) /\ forall k', In k' (JsMap.keys m) -> k' <= k.

Definition isMinKey (m : JsMap.t) (k : Q) : Prop :=
  In k (JsMap.keys m) /\ forall k', In k' (JsMap.keys m) -> k <= k'.

(** A synchronised subscription whose book is the two given maps. *)
Definition synchronisedAt (bm am : JsMap.t) : Subscription :=
  {| bidMap := bm;
     askMap := am;
     eventBuffer := [];
     hasSnapshot := true;
     lastUpdateId := Some 100%Z;
     processing := false;
     animationFrames := 0%nat;
     delivered := [] |}.

(** A [depthUpdate] with the given ids and changes. *)
Definition depthUpdate (U u : Z) (b a : list Level) : DepthUpdate.t :=
  {| DepthUpdate.U := U;
     DepthUpdate.u := u;
     DepthUpdate.b := Some b;
     DepthUpdate.a := Some a |}.

(** Every entry of the map has a quantity above 0. *)
Definition positive (m : JsMap.t) : Prop := forall l, In l m -> 0 < snd l.

Definition storePositive (s : Subscription) : Prop :=
  positive (bidMap s) /\ positive (askMap s).

(** Inputs as the exchange documents them: positive quantities in the depth
    snapshot, no negative quantity in a change list. *)
Definition nonnegChanges (changes : option (list Level)) : Prop :=
  match changes with
  | Some ls => forall l, In l ls -> 0 <= snd l
  | None => True
  end.

Definition plausibleEvent (e : DepthUpdate.t) : Prop :=
  nonnegChanges (DepthUpdate.b e) /\ nonnegChanges (DepthUpdate.a e).

Definition positiveLevels (ls : list Level) : Prop :=
  forall l, In l ls -> 0 < snd l.

Definition positiveIfPresent (ls : option (list Level)) : Prop :=
  match ls with
  | Some ls' => positiveLevels ls'
  | None => True
  end.

Definition plausible (i : Input) : Prop :=
  match i with
  | WsMessage (DepthUpdateMsg e) => plausibleEvent e
  | SnapshotArrived data =>
      positiveLevels (Depth.bids data) /\ positiveLevels (Depth.asks data)
  | SnapshotBody data =>
      positiveIfPresent (DepthBody.bids data)
      /\ positiveIfPresent (DepthBody.asks data)
  | _ => True
  end.

(** The handler receives the events one after the other. *)
Definition receive (s : Subscription) (events : list DepthUpdate.t)
  : Subscription :=
  fold_left (fun s' e => onmessage (DepthUpdateMsg e) s') events s.

(** A session from its start: the events of [buffer] arrive, then the depth
    snapshot does. *)
Definition synchronise (buffer : list DepthUpdate.t) (data : Depth.t)
  : Subscription :=
  fetchSnapshot data (receive subscribe buffer).

(** One callback is queued exactly while [processing] is set. *)
Definition throttleInv (s : Subscription) : Prop :=
  animationFrames s = if processing s then 1%nat else 0%nat.

(** What a run on plausible inputs keeps true: a positive book, and only
    plausible events in the buffer. *)
Definition plausibleState (s : Subscription) : Prop :=
  storePositive s /\ Forall plausibleEvent (eventBuffer s).

(** Both sides of the book are maps without repeated keys. *)
Definition storeWf (s : Subscription) : Prop :=
  JsMap.wf (bidMap s) /\ JsMap.wf (askMap s).

(** Closes [forall l, In l [...] -> 0 < snd l] on a literal list. *)
Ltac each_level :=
  let l := fresh "l" in
  let Hl := fresh "Hl" in
  intros l Hl; simpl in Hl;
  repeat (destruct Hl as [<- | Hl]; [simpl; lra|]);
  destruct Hl.

(** * The rest of the code

    What follows embeds the code around the claims: the mock generator of
    [marketService.ts], the history loop of [App.tsx], and the click handler
    and bar layout of [components/CanyonScene.tsx]. *)

(** ** [generateMockSnapshot] *)

Definition INITIAL_PRICE : Q := 96000.

(** [Math.random]: [rnd k] is the value of the [k]-th call made from the
    entry of the function on. *)
Definition Random : Type := nat -> Q.

(** The two loops [for (let i = 0; i < VISUAL_BUCKETS; i++)] of the mock
    generator: [n] turns are left, [i] is the loop counter, [currentVol] the
    running sum and [k] the number of calls of [Math.random] made so far. *)
Fixpoint mockSide (rnd : Random) (isBid : bool) (mid : Q)
  (n i : nat) (currentVol : Q) (k : nat) : list OrderEntry :=
  match n with
  | O => []
  | S n' =>
      let qty := rnd k * 5 + rnd (S k) * 10 in
      let currentVol' := currentVol + qty in
      {| price := bucketPrice isBid mid i;
         quantity := qty;
         total := currentVol' |}
      :: mockSide rnd isBid mid n' (S i) currentVol' (S (S k))
  end.

(** The mid price, and the number of random values its computation took. *)
Definition mockMidPrice (rnd : Random) (prevSnapshot : option OrderBookSnapshot)
  : Q * nat :=
  match prevSnapshot with
  | Some prev =>
      let volatility := midPrice prev * 0.0005 in
      let change := (rnd 0%nat - 0.5) * volatility in
      (midPrice prev + change, 1%nat)
  | None => (INITIAL_PRICE, 0%nat)
  end.

Definition generateMockSnapshot (rnd : Random) (now : Z)
  (prevSnapshot : option OrderBookSnapshot) : OrderBookSnapshot :=
  let '(mid, k) := mockMidPrice rnd prevSnapshot in
  {| timestamp := now;
     midPrice := mid;
     bids := mockSide rnd true mid VISUAL_BUCKETS 0 0 k;
     asks := mockSide rnd false mid VISUAL_BUCKETS 0 0
               (k + 2 * VISUAL_BUCKETS) |}.

(** ** [App.tsx]: the history loop *)

Definition MAX_HISTORY : nat := 100.

(** One [tick]: [latestData] is [latestDataRef.current], [currentHist] is
    [historyRef.current]; the result is the new [historyRef.current]. *)
Definition tick (isPaused : bool) (latestData : option OrderBookSnapshot)
  (currentHist : list OrderBookSnapshot) : list OrderBookSnapshot :=
  if isPaused then currentHist
  else
    match latestData with
    | None => currentHist
    | Some snapshot =>
        let newHistory := currentHist ++ [snapshot] in
        if (MAX_HISTORY <? length newHistory)%nat then tl newHistory
        else newHistory
    end.

(** ** [CanyonScene.tsx]: slices, bars and clicks *)

Definition Z_SPACING : Q := 0.8.
Definition X_SCALE : Q := 0.05.
Definition Y_SCALE : Q := 0.05.
Definition BAR_WIDTH : Q := 0.12.
Definition DISPLAY_LIMIT : nat := 100.
Definition DEPTH_PER_SIDE : nat := 60.
Definition MAX_INSTANCES : nat := DISPLAY_LIMIT * DEPTH_PER_SIDE.

(** [l.slice(-n)]: the last [n] elements, all of them when there are fewer. *)
Definition sliceLast {A : Type} (n : nat) (l : list A) : list A :=
  skipn (length l - n) l.

(** [history.slice(-DISPLAY_LIMIT).reverse()] *)
Definition displayHistory (history : list OrderBookSnapshot)
  : list OrderBookSnapshot :=
  rev (sliceLast DISPLAY_LIMIT history).

(** [latestSnapshot?.midPrice || 0] *)
Definition centerPriceOf (history : list OrderBookSnapshot) : Q :=
  match rev history with
  | latestSnapshot :: _ => midPrice latestSnapshot
  | [] => 0
  end.

(** [Math.round]: the nearest integer, a half going up. *)
Definition Math_round (x : Q) : Z := Qfloor (x + 0.5).

(** [handleClick]: the snapshot handed to [onSelectSlice], if any; [z] is
    [e.point.z]. *)
Definition handleClick (z : Q) (history : list OrderBookSnapshot)
  : option OrderBookSnapshot :=
  let timeIndex := Z.abs (Math_round (z / Z_SPACING)) in
  let reverseHistory := rev (sliceLast DISPLAY_LIMIT history) in
  nth_error reverseHistory (Z.to_nat timeIndex).

(** What the layout writes into the matrix of one instance: the position
    and the vertical scale of the bar (the colour, which goes through
    [Math.pow], is left out). *)
Record Bar : Type := mkBar
  { posX : Q;
    posY : Q;
    posZ : Q;
    scaleY : Q }.

(** The body of [snapshot.bids.forEach] and of [snapshot.asks.forEach]. *)
Definition barOf (isBid : bool) (centerPrice : Q) (snapshot : OrderBookSnapshot)
  (timeIndex i : nat) (entry : OrderEntry) : Bar :=
  let zPos := inject_Z (Z.of_nat timeIndex) * Z_SPACING in
  let priceDiff := midPrice snapshot - centerPrice in
  let xShift := priceDiff * X_SCALE in
  let xPos :=
    if isBid
    then - (inject_Z (Z.of_nat i) * 2.0 * X_SCALE) - 0.2 + xShift
    else (inject_Z (Z.of_nat i) * 2.0 * X_SCALE) + 0.2 + xShift in
  let height := Qmax 0.1 (total entry * Y_SCALE) in
  {| posX := xPos; posY := height / 2; posZ := - zPos; scaleY := height |}.

(** The inner [forEach]: [instances] are the bars written so far, so that
    [bidIdx] (or [askIdx]) is their number; at [MAX_INSTANCES] the callback
    returns without writing. *)
Fixpoint layoutEntries (isBid : bool) (centerPrice : Q)
  (snapshot : OrderBookSnapshot) (timeIndex : nat)
  (entries : list OrderEntry) (i : nat) (instances : list Bar) : list Bar :=
  match entries with
  | [] => instances
  | entry :: rest =>
      layoutEntries isBid centerPrice snapshot timeIndex rest (S i)
        (if (MAX_INSTANCES <=? length instances)%nat then instances
         else instances ++ [barOf isBid centerPrice snapshot timeIndex i entry])
  end.

(** The outer [displayHistory.forEach], for one side. *)
Fixpoint layoutSlices (isBid : bool) (centerPrice : Q)
  (slices : list OrderBookSnapshot) (timeIndex : nat) (instances : list Bar)
  : list Bar :=
  match slices with
  | [] => instances
  | snapshot :: rest =>
      layoutSlices isBid centerPrice rest (S timeIndex)
        (layoutEntries isBid centerPrice snapshot timeIndex
           (if isBid then bids snapshot else asks snapshot) 0 instances)
  end.

(** The bars of one side after the layout effect has run on [history]. *)
Definition layout (isBid : bool) (history : list OrderBookSnapshot)
  : list Bar :=
  layoutSlices isBid (centerPriceOf history) (displayHistory history) 0 [].

(** ** Vocabulary of the further statements *)

(** What a consumer can rely on in a view: the two walls have
    [VISUAL_BUCKETS] buckets each, laid on the price grid that starts at the
    mid price, with no negative bucket and non-decreasing totals. *)
Definition wellFormedView (v : OrderBookSnapshot) : Prop :=
  length (bids v) = VISUAL_BUCKETS /\ length (asks v) = VISUAL_BUCKETS
  /\ (forall i : nat, (i < VISUAL_BUCKETS)%nat ->
        price (nth i (bids v) noEntry) =
          midPrice v - inject_Z (Z.of_nat i) * AGGREGATION_BUCKET_SIZE
        /\ price (nth i (asks v) noEntry) =
          midPrice v + inject_Z (Z.of_nat i) * AGGREGATION_BUCKET_SIZE
        /\ 0 <= quantity (nth i (bids v) noEntry)
        /\ 0 <= quantity (nth i (asks v) noEntry))
  /\ cumulativeMonotone (bids v) /\ cumulativeMonotone (asks v).

(** The display ticks among the inputs of a session. *)
Definition isTick (i : Input) : bool :=
  match i with
  | AnimationFrame _ => true
  | _ => false
  end.

Definition ticksOf (inputs : list Input) : nat :=
  length (filter isTick inputs).

(** The [depthUpdate] events among the inputs, in arrival order. *)
Definition depthUpdatesOf (inputs : list Input) : list DepthUpdate.t :=
  flat_map
    (fun i => match i with
              | WsMessage (DepthUpdateMsg e) => [e]
              | _ => []
              end) inputs.

(** No answer to the request of [fetchSnapshot] is among the inputs, other
    than its rejection. *)
Definition answered (i : Input) : bool :=
  match i with
  | SnapshotArrived _ | SnapshotBody _ => true
  | _ => false
  end.

Definition noSnapshot (inputs : list Input) : Prop :=
  forall i, In i inputs -> answered i = false.

(** The event is covered by the snapshot. *)
Definition stale (data : Depth.t) (e : DepthUpdate.t) : Prop :=
  (DepthUpdate.u e <= Depth.lastUpdateId data)%Z.

(** [Math.random] returns values in [[0, 1)]. *)
Definition unitRandom (rnd : Random) : Prop :=
  forall k : nat, 0 <= rnd k /\ rnd k < 1.

(** The history after a run of ticks, not paused, that found the snapshots
    [latest] one after the other in [latestDataRef.current]. *)
Definition ticks (latest : list OrderBookSnapshot)
  (currentHist : list OrderBookSnapshot) : list OrderBookSnapshot :=
  fold_left (fun hist snapshot => tick false (Some snapshot) hist)
    latest currentHist.

(** The bars of the entries of one slice, with no limit on their number. *)
Fixpoint barsOfEntries (isBid : bool) (centerPrice : Q)
  (snapshot : OrderBookSnapshot) (timeIndex : nat)
  (entries : list OrderEntry) (i : nat) : list Bar :=
  match entries with
  | [] => []
  | entry :: rest =>
      barOf isBid centerPrice snapshot timeIndex i entry
      :: barsOfEntries isBid centerPrice snapshot timeIndex rest (S i)
  end.

(** The bars of a list of slices, with no limit on their number. *)
Fixpoint barsOfSlices (isBid : bool) (centerPrice : Q)
  (slices : list OrderBookSnapshot) (timeIndex : nat) : list Bar :=
  match slices with
  | [] => []
  | snapshot :: rest =>
      barsOfEntries isBid centerPrice snapshot timeIndex
        (if isBid then bids snapshot else asks snapshot) 0
      ++ barsOfSlices isBid centerPrice rest (S timeIndex)
  end.

(** Each side of the snapshot has [DEPTH_PER_SIDE] entries. *)
Definition fullDepth (v : OrderBookSnapshot) : Prop :=
  length (bids v) = DEPTH_PER_SIDE /\ length (asks v) = DEPTH_PER_SIDE.

(** Two subscriptions agree on the data of the session: the two maps, the
    buffer, [hasSnapshot] and [lastUpdateId]. *)
Definition sameData (s1 s2 : Subscription) : Prop :=
  bidMap s1 = bidMap s2 /\ askMap s1 = askMap s2
  /\ eventBuffer s1 = eventBuffer s2 /\ hasSnapshot s1 = hasSnapshot s2
  /\ lastUpdateId s1 = lastUpdateId s2.

(** The inputs of a session without its display ticks. *)
Definition withoutTicks (inputs : list Input) : list Input :=
  filter (fun i => negb (isTick i)) inputs.

(** * Properties of the rounding *)

Lemma pow2_pos (e : Z) : 0 < pow2 e.
Proof. apply Qpower_0_lt. reflexivity. Qed.

Lemma pow2_plus (a b : Z) : pow2 (a + b) == pow2 a * pow2 b.
Proof. apply Qpower_plus. discriminate. Qed.

Lemma pow2_succ (a : Z) : pow2 (a + 1) == pow2 a * 2.
Proof. rewrite pow2_plus. reflexivity. Qed.

Lemma pow2_le (a b : Z) : (a <= b)%Z -> pow2 a <= pow2 b.
Proof. intros H. apply Qpower_le_compat_l; [exact H | discriminate]. Qed.

Lemma pow2_lt_inv (a b : Z) : pow2 a < pow2 b -> (a < b)%Z.
Proof. intros H. apply (Qpower_lt_compat_l_inv 2); [exact H | reflexivity]. Qed.

Lemma pow2_Z (a : Z) : (0 <= a)%Z -> inject_Z (2 ^ a) == pow2 a.
Proof. intros H. apply Zpower_Qpower. exact H. Qed.

Lemma ilog2_proper (x y : Q) : x == y -> ilog2 x = ilog2 y.
Proof.
  intros E. unfold ilog2. rewrite (Qred_complete x y E). reflexivity.
Qed.

Lemma ilog2_spec (x : Q) :
  0 < x -> pow2 (ilog2 x) <= x /\ x < pow2 (ilog2 x + 1).
Proof.
  intros Hx. unfold ilog2.
  assert (Ex : Qred x == x) by apply Qred_correct.
  set (x' := Qred x) in *. rewrite <- Ex in Hx |- *. clearbody x'. clear Ex x.
  destruct x' as [n d]. cbn [Qnum Qden].
  assert (Hn : (0 < n)%Z) by (unfold Qlt in Hx; simpl in Hx; lia).
  set (a := Z.log2 n). set (b := Z.log2 (Zpos d)).
  assert (Ha : (0 <= a)%Z) by apply Z.log2_nonneg.
  assert (Hb : (0 <= b)%Z) by apply Z.log2_nonneg.
  destruct (Z.log2_spec n Hn) as [A1 A2]. fold a in A1, A2.
  destruct (Z.log2_spec (Zpos d) ltac:(lia)) as [B1 B2]. fold b in B1, B2.
  assert (XD : (n # d) * inject_Z (Zpos d) == inject_Z n).
  { unfold Qeq, Qmult, inject_Z; simpl. lia. }
  assert (PA : pow2 a <= inject_Z n /\ inject_Z n < pow2 a * 2).
  { rewrite <- pow2_succ, <- !pow2_Z by lia. rewrite <- Zle_Qle, <- Zlt_Qlt.
    replace (a + 1)%Z with (Z.succ a) by lia. lia. }
  assert (PB : pow2 b <= inject_Z (Zpos d) /\ inject_Z (Zpos d) < pow2 b * 2).
  { rewrite <- pow2_succ, <- !pow2_Z by lia. rewrite <- Zle_Qle, <- Zlt_Qlt.
    replace (b + 1)%Z with (Z.succ b) by lia. lia. }
  assert (PE : pow2 (a - b) * pow2 b == pow2 a).
  { rewrite <- pow2_plus. replace (a - b + b)%Z with a by lia. reflexivity. }
  pose proof (pow2_pos (a - b)) as P0. pose proof (pow2_pos b) as P1.
  assert (P2 : pow2 (a - b - 1) * 2 == pow2 (a - b)).
  { rewrite <- pow2_succ. replace (a - b - 1 + 1)%Z with (a - b)%Z by lia.
    reflexivity. }
  pose proof (pow2_pos (a - b - 1)) as P3.
  set (X := n # d) in *. set (D := inject_Z (Zpos d)) in *.
  set (N := inject_Z n) in *.
  set (E := pow2 (a - b)) in *. set (B := pow2 b) in *. set (A := pow2 a) in *.
  set (E' := pow2 (a - b - 1)) in *.
  destruct PA as [PA1 PA2], PB as [PB1 PB2].
  assert (U : X < E * 2).
  { apply (Qmult_lt_r _ _ D); [lra|]. nra. }
  assert (L : E' <= X).
  { apply (Qmult_le_r _ _ D); [lra|]. nra. }
  destruct (Qle_bool E X) eqn:C.
  - apply Qle_bool_iff in C. split; [exact C|].
    rewrite pow2_succ. exact U.
  - assert (C' : X < E).
    { apply Qnot_le_lt. intros H. apply Qle_bool_iff in H.
      fold E in H. congruence. }
    fold E'. split; [exact L|].
    replace (a - b - 1 + 1)%Z with (a - b)%Z by lia. exact C'.
Qed.

Lemma ilog2_unique (x : Q) (e : Z) :
  pow2 e <= x -> x < pow2 (e + 1) -> ilog2 x = e.
Proof.
  intros H1 H2.
  assert (Hx : 0 < x) by (pose proof (pow2_pos e); lra).
  destruct (ilog2_spec x Hx) as [S1 S2].
  assert (A : (ilog2 x < e + 1)%Z) by (apply pow2_lt_inv; lra).
  assert (B : (e < ilog2 x + 1)%Z) by (apply pow2_lt_inv; lra).
  lia.
Qed.

Lemma ilog2_mono (x y : Q) : 0 < x -> x <= y -> (ilog2 x <= ilog2 y)%Z.
Proof.
  intros Hx Hxy.
  destruct (ilog2_spec x Hx) as [S1 _].
  destruct (ilog2_spec y ltac:(lra)) as [_ T2].
  assert (A : (ilog2 x < ilog2 y + 1)%Z) by (apply pow2_lt_inv; lra).
  lia.
Qed.

(** Rounding to the nearest integer *)

Lemma rne_proper (x y : Q) : x == y -> rne x = rne y.
Proof.
  intros E.
  assert (F : Qfloor x = Qfloor y) by (apply Qfloor_comp; exact E).
  unfold rne. rewrite F.
  assert (C : (x - inject_Z (Qfloor y) ?= 1 # 2)
              = (y - inject_Z (Qfloor y) ?= 1 # 2)).
  { apply Qcompare_comp; [|reflexivity]. rewrite E. reflexivity. }
  rewrite C. reflexivity.
Qed.

Lemma rne_bounds (x : Q) : (Qfloor x <= rne x <= Qfloor x + 1)%Z.
Proof.
  unfold rne.
  destruct (x - inject_Z (Qfloor x) ?= 1 # 2); [destruct (Z.even _)| |]; lia.
Qed.

Lemma rne_Z (n : Z) : rne (inject_Z n) = n.
Proof.
  unfold rne. rewrite Qfloor_Z.
  assert (E : inject_Z n - inject_Z n < 1 # 2) by lra.
  rewrite Qlt_alt in E. rewrite E. reflexivity.
Qed.

Lemma rne_mono (x y : Q) : x <= y -> (rne x <= rne y)%Z.
Proof.
  intros H.
  pose proof (Qfloor_resp_le x y H) as F.
  pose proof (rne_bounds x) as Bx. pose proof (rne_bounds y) as By.
  destruct (Z.eq_dec (Qfloor x) (Qfloor y)) as [E | NE]; [|lia].
  unfold rne in *. rewrite <- E in *.
  set (f := Qfloor x) in *.
  destruct (x - inject_Z f ?= 1 # 2) eqn:Cx;
    destruct (y - inject_Z f ?= 1 # 2) eqn:Cy;
    try (destruct (Z.even f)); try lia; exfalso;
    repeat match goal with
           | C : (_ ?= _) = Eq |- _ => apply Qeq_alt in C
           | C : (_ ?= _) = Lt |- _ => apply Qlt_alt in C
           | C : (_ ?= _) = Gt |- _ => apply Qgt_alt in C
           end; lra.
Qed.

(** Rounding a positive number to 53 significant bits *)

Lemma flpos_proper (x y : Q) : x == y -> flpos x == flpos y.
Proof.
  intros E. unfold flpos. rewrite (ilog2_proper x y E).
  rewrite (rne_proper (x / pow2 (ilog2 y - 52)) (y / pow2 (ilog2 y - 52))).
  - reflexivity.
  - rewrite E. reflexivity.
Qed.

Lemma pow2_52 (e : Z) : pow2 e == inject_Z (2 ^ 52) * pow2 (e - 52).
Proof.
  rewrite pow2_Z by lia. rewrite <- pow2_plus.
  replace (52 + (e - 52))%Z with e by lia. reflexivity.
Qed.

Lemma pow2_53 (e : Z) : pow2 (e + 1) == inject_Z (2 ^ 53) * pow2 (e - 52).
Proof.
  rewrite pow2_Z by lia. rewrite <- pow2_plus.
  replace (53 + (e - 52))%Z with (e + 1)%Z by lia. reflexivity.
Qed.

(** The mantissa of a positive number is between 2^52 and 2^53. *)
Lemma mantissa_bounds (x : Q) :
  0 < x ->
  (2 ^ 52 <= rne (x / pow2 (ilog2 x - 52)) <= 2 ^ 53)%Z.
Proof.
  intros Hx. destruct (ilog2_spec x Hx) as [S1 S2].
  set (e := ilog2 x) in *. set (u := pow2 (e - 52)).
  pose proof (pow2_pos (e - 52)) as U. fold u in U.
  rewrite (pow2_52 e) in S1. rewrite (pow2_53 e) in S2. fold u in S1, S2.
  assert (L : inject_Z (2 ^ 52) <= x / u).
  { apply Qle_shift_div_l; assumption. }
  assert (R : x / u <= inject_Z (2 ^ 53)).
  { apply Qle_shift_div_r; [assumption | lra]. }
  apply rne_mono in L, R. rewrite rne_Z in L, R. lia.
Qed.

Lemma flpos_bounds (x : Q) :
  0 < x -> pow2 (ilog2 x) <= flpos x /\ flpos x <= pow2 (ilog2 x + 1).
Proof.
  intros Hx. pose proof (mantissa_bounds x Hx) as [M1 M2].
  unfold flpos. set (e := ilog2 x) in *. set (u := pow2 (e - 52)) in *.
  pose proof (pow2_pos (e - 52)) as U. fold u in U.
  rewrite (pow2_52 e), (pow2_53 e). fold u.
  rewrite Zle_Qle in M1, M2.
  split; apply Qmult_le_compat_r; lra.
Qed.

Lemma flpos_pos (x : Q) : 0 < x -> 0 < flpos x.
Proof.
  intros Hx. destruct (flpos_bounds x Hx) as [B _].
  pose proof (pow2_pos (ilog2 x)). lra.
Qed.

Lemma flpos_mono (x y : Q) : 0 < x -> x <= y -> flpos x <= flpos y.
Proof.
  intros Hx Hxy.
  assert (Hy : 0 < y) by lra.
  pose proof (ilog2_mono x y Hx Hxy) as E.
  destruct (Z.eq_dec (ilog2 x) (ilog2 y)) as [Eq | NE].
  - unfold flpos. rewrite Eq. set (u := pow2 (ilog2 y - 52)).
    pose proof (pow2_pos (ilog2 y - 52)) as U. fold u in U.
    apply Qmult_le_compat_r; [|lra].
    rewrite <- Zle_Qle. apply rne_mono.
    apply Qmult_le_compat_r; [exact Hxy|].
    apply Qlt_le_weak. apply Qinv_lt_0_compat. exact U.
  - destruct (flpos_bounds x Hx) as [_ Bx].
    destruct (flpos_bounds y Hy) as [By _].
    assert (P : pow2 (ilog2 x + 1) <= pow2 (ilog2 y)) by (apply pow2_le; lia).
    lra.
Qed.

Lemma pow2_shift (a k : Z) :
  (0 <= k)%Z -> pow2 (a + k) == inject_Z (2 ^ k) * pow2 a.
Proof.
  intros H. rewrite pow2_Z by exact H. rewrite pow2_plus. ring.
Qed.

Lemma Qdiv_unique (a b c : Q) : 0 < b -> a == c * b -> a / b == c.
Proof.
  intros Hb E. rewrite E. field. lra.
Qed.

Lemma flpos_idem (x : Q) : 0 < x -> flpos (flpos x) == flpos x.
Proof.
  intros Hx. pose proof (mantissa_bounds x Hx) as [M1 M2].
  set (e := ilog2 x) in *. set (u := pow2 (e - 52)) in *.
  set (m := rne (x / u)) in *.
  pose proof (pow2_pos (e - 52)) as U. fold u in U.
  assert (Y : flpos x == inject_Z m * u) by reflexivity.
  rewrite (flpos_proper _ _ Y).
  transitivity (inject_Z m * u); [|symmetry; exact Y].
  destruct (Z.eq_dec m (2 ^ 53)) as [Top | NotTop].
  - assert (Y' : inject_Z m * u == pow2 (e + 1)).
    { rewrite Top. symmetry. apply pow2_53. }
    rewrite (flpos_proper _ _ Y').
    transitivity (pow2 (e + 1)); [|symmetry; exact Y'].
    assert (L : ilog2 (pow2 (e + 1)) = (e + 1)%Z).
    { apply ilog2_unique; [lra|]. rewrite (pow2_succ (e + 1)).
      pose proof (pow2_pos (e + 1)). lra. }
    unfold flpos. rewrite L.
    pose proof (pow2_pos (e + 1 - 52)) as U'.
    assert (K : pow2 (e + 1) == inject_Z (2 ^ 52) * pow2 (e + 1 - 52)).
    { rewrite <- pow2_shift by lia.
      replace (e + 1 - 52 + 52)%Z with (e + 1)%Z by lia. reflexivity. }
    rewrite (rne_proper _ _ (Qdiv_unique _ _ _ U' K)), rne_Z.
    symmetry. exact K.
  - assert (L : ilog2 (inject_Z m * u) = e).
    { apply ilog2_unique.
      - rewrite (pow2_52 e). fold u. apply Qmult_le_compat_r; [|lra].
        rewrite <- Zle_Qle. lia.
      - rewrite (pow2_53 e). fold u. apply Qmult_lt_compat_r; [lra|].
        rewrite <- Zlt_Qlt. lia. }
    unfold flpos. rewrite L. fold u.
    assert (D : inject_Z m * u / u == inject_Z m)
      by (apply Qdiv_unique; [exact U | reflexivity]).
    rewrite (rne_proper _ _ D), rne_Z. reflexivity.
Qed.

(** Rounding to the nearest double *)

#[global] Instance fl_proper : Proper (Qeq ==> Qeq) fl.
Proof.
  intros x y E. unfold fl. rewrite E.
  destruct (y ?= 0); [reflexivity | |].
  - rewrite (flpos_proper (- x) (- y)); [reflexivity | rewrite E; reflexivity].
  - apply flpos_proper. exact E.
Qed.

Lemma fl_0 : fl 0 == 0.
Proof. reflexivity. Qed.

Lemma fl_pos (x : Q) : 0 < x -> fl x == flpos x.
Proof.
  intros H. unfold fl. rewrite Qgt_alt in H. rewrite H. reflexivity.
Qed.

Lemma fl_neg (x : Q) : x < 0 -> fl x == - flpos (- x).
Proof.
  intros H. unfold fl. rewrite Qlt_alt in H. rewrite H. reflexivity.
Qed.

Lemma fl_opp (x : Q) : fl (- x) == - fl x.
Proof.
  destruct (Q_dec x 0) as [[H | H] | H].
  - rewrite (fl_neg x H), (fl_pos (- x)) by lra. ring.
  - rewrite (fl_pos x H), (fl_neg (- x)) by lra.
    rewrite (flpos_proper (- - x) x) by ring. reflexivity.
  - rewrite H. reflexivity.
Qed.

Lemma fl_sign (x : Q) :
  (x < 0 -> fl x < 0) /\ (0 < x -> 0 < fl x) /\ (x == 0 -> fl x == 0).
Proof.
  split; [|split]; intros H.
  - rewrite (fl_neg x H). pose proof (flpos_pos (- x)). lra.
  - rewrite (fl_pos x H). apply flpos_pos. exact H.
  - rewrite H. reflexivity.
Qed.

Lemma fl_mono (x y : Q) : x <= y -> fl x <= fl y.
Proof.
  intros H.
  destruct (fl_sign x) as (Nx & Px & Zx).
  destruct (fl_sign y) as (Ny & Py & Zy).
  destruct (Q_dec x 0) as [[Hx | Hx] | Hx];
    destruct (Q_dec y 0) as [[Hy | Hy] | Hy];
    try (specialize (Nx Hx)); try (specialize (Px Hx));
    try (specialize (Zx Hx)); try (specialize (Ny Hy));
    try (specialize (Py Hy)); try (specialize (Zy Hy)); try lra.
  - rewrite (fl_neg x Hx), (fl_neg y Hy).
    apply Qopp_le_compat. apply flpos_mono; lra.
  - rewrite (fl_pos x Hx), (fl_pos y Hy). apply flpos_mono; lra.
Qed.

Lemma fl_idem (x : Q) : fl (fl x) == fl x.
Proof.
  destruct (Q_dec x 0) as [[H | H] | H].
  - rewrite (fl_neg x H), fl_opp.
    pose proof (flpos_pos (- x) ltac:(lra)) as P.
    rewrite (fl_pos _ P), flpos_idem by lra. reflexivity.
  - rewrite (fl_pos x H).
    pose proof (flpos_pos x H) as P.
    rewrite (fl_pos _ P), flpos_idem by lra. reflexivity.
  - rewrite H. reflexivity.
Qed.

Lemma fl_nonneg (x : Q) : 0 <= x -> 0 <= fl x.
Proof. intros H. rewrite <- fl_0. apply fl_mono. exact H. Qed.

Lemma fl_comp (x y : Q) : x == y -> fl x == fl y.
Proof. intros E. rewrite E. reflexivity. Qed.

(** Halving is exact. *)
Lemma flpos_half (x : Q) : 0 < x -> flpos (x / 2) == flpos x / 2.
Proof.
  intros Hx. destruct (ilog2_spec x Hx) as [S1 S2].
  set (e := ilog2 x) in *.
  assert (P : pow2 (e - 1) * 2 == pow2 e).
  { rewrite <- pow2_succ. replace (e - 1 + 1)%Z with e by lia. reflexivity. }
  assert (X2 : x / 2 == x * (1 # 2)) by (field; discriminate).
  assert (L : ilog2 (x / 2) = (e - 1)%Z).
  { apply ilog2_unique.
    - rewrite X2. pose proof (pow2_pos (e - 1)). lra.
    - replace (e - 1 + 1)%Z with e by lia. rewrite X2.
      rewrite pow2_succ in S2. lra. }
  unfold flpos. rewrite L. fold e.
  pose proof (pow2_pos (e - 52)) as U.
  pose proof (pow2_pos (e - 1 - 52)) as U'.
  assert (PU : pow2 (e - 1 - 52) * 2 == pow2 (e - 52)).
  { rewrite <- pow2_succ. replace (e - 1 - 52 + 1)%Z with (e - 52)%Z by lia.
    reflexivity. }
  assert (D : x / 2 / pow2 (e - 1 - 52) == x / pow2 (e - 52)).
  { rewrite <- PU. field. lra. }
  rewrite (rne_proper _ _ D).
  set (r := inject_Z _). set (a := pow2 (e - 1 - 52)) in *.
  set (b := pow2 (e - 52)) in *.
  assert (H1 : r * b / 2 == r * (b * (1 # 2))) by (field; discriminate).
  assert (H2 : b * (1 # 2) == a) by lra.
  rewrite H1, H2. reflexivity.
Qed.

Lemma fl_half (x : Q) : fl (x / 2) == fl x / 2.
Proof.
  assert (X2 : forall y, y / 2 == y * (1 # 2)) by (intros; field; discriminate).
  destruct (Q_dec x 0) as [[H | H] | H].
  - rewrite (fl_neg x H), (fl_neg (x / 2)) by (rewrite X2; lra).
    rewrite (flpos_proper (- (x / 2)) (- x / 2)) by (field; discriminate).
    rewrite flpos_half by lra. field.
  - rewrite (fl_pos x H), (fl_pos (x / 2)) by (rewrite X2; lra).
    apply flpos_half. exact H.
  - rewrite H. reflexivity.
Qed.

Lemma fl_Qabs (x : Q) : Qabs (fl x) == fl (Qabs x).
Proof.
  destruct (fl_sign x) as (Nx & Px & Zx).
  destruct (Q_dec x 0) as [[H | H] | H].
  - rewrite (Qabs_neg x), (Qabs_neg (fl x)) by (try apply Nx in H; lra).
    symmetry. apply fl_opp.
  - rewrite (Qabs_pos x), (Qabs_pos (fl x)) by (try apply Px in H; lra).
    reflexivity.
  - rewrite H. reflexivity.
Qed.

Lemma fsum_app (l1 l2 : list Q) (start : Q) :
  fsum (l1 ++ l2) start = fsum l2 (fsum l1 start).
Proof. apply fold_left_app. Qed.

Lemma fsum_nonneg (l : list Q) :
  forall start, 0 <= start -> (forall q, In q l -> 0 <= q) ->
    0 <= fsum l start.
Proof.
  unfold fsum.
  induction l as [|x r IH]; intros start Hs H; simpl; [exact Hs|].
  apply IH.
  - apply fl_nonneg. assert (0 <= x) by (apply H; left; reflexivity). lra.
  - intros q Hq. apply H. right; exact Hq.
Qed.

(** * Properties of [aggregateOrders] *)

Section Aggregator.

Variable anchor : Q.

Lemma add_at_length (i : nat) (q : Q) (bv : list Q) :
  length (add_at i q bv) = length bv.
Proof.
  revert i; induction bv as [|x r IH]; intros [|i]; simpl; auto.
Qed.

Lemma nth_add_at_same (i : nat) (q : Q) (bv : list Q) :
  (i < length bv)%nat -> nth i (add_at i q bv) 0 = fl (nth i bv 0 + q).
Proof.
  revert i; induction bv as [|x r IH]; intros [|i] Hi; simpl in *;
    try lia; auto.
  apply IH; lia.
Qed.

Lemma nth_add_at_other (i j : nat) (q : Q) (bv : list Q) :
  i <> j -> nth i (add_at j q bv) 0 = nth i bv 0.
Proof.
  revert i j; induction bv as [|x r IH]; intros [|i] [|j] Hij; simpl;
    auto; try congruence.
Qed.

Lemma distribute_length (bv : list Q) (l : Q * Q) :
  length (distribute anchor bv l) = length bv.
Proof.
  destruct l as [p q]; unfold distribute.
  destruct (inRange _); auto using add_at_length.
Qed.

Lemma fold_distribute_length (m : JsMap.t) :
  forall bv, length (fold_left (distribute anchor) m bv) = length bv.
Proof.
  induction m as [|l r IH]; intros bv; simpl; auto.
  rewrite IH; apply distribute_length.
Qed.

Lemma bucketVolumesOf_length (m : JsMap.t) :
  length (bucketVolumesOf m anchor) = VISUAL_BUCKETS.
Proof.
  unfold bucketVolumesOf; rewrite fold_distribute_length.
  apply repeat_length.
Qed.

Lemma inRange_spec (z : Z) :
  inRange z = true <-> (0 <= z < Z.of_nat VISUAL_BUCKETS)%Z.
Proof.
  unfold inRange; rewrite andb_true_iff, Z.leb_le, Z.ltb_lt; tauto.
Qed.

(** One turn of the distribution loop, seen from bucket [i]. *)
Lemma nth_distribute (bv : list Q) (p q : Q) (i : nat) :
  length bv = VISUAL_BUCKETS -> (i < VISUAL_BUCKETS)%nat ->
  nth i (distribute anchor bv (p, q)) 0 =
  if (bucketIndex p anchor =? Z.of_nat i)%Z then fl (nth i bv 0 + q)
  else nth i bv 0.
Proof.
  intros Hlen Hi; unfold distribute.
  destruct (bucketIndex p anchor =? Z.of_nat i)%Z eqn:E.
  - apply Z.eqb_eq in E.
    assert (R : inRange (bucketIndex p anchor) = true)
      by (apply inRange_spec; lia).
    rewrite R, E, Nat2Z.id. apply nth_add_at_same; lia.
  - apply Z.eqb_neq in E.
    destruct (inRange (bucketIndex p anchor)) eqn:R; auto.
    apply inRange_spec in R. apply nth_add_at_other; lia.
Qed.

(** The volume of bucket [i] after the loop: the quantities of the levels
    of index [i], added to it in the order of the map. *)
Lemma nth_fold_distribute (m : JsMap.t) :
  forall (bv : list Q) (i : nat),
    length bv = VISUAL_BUCKETS -> (i < VISUAL_BUCKETS)%nat ->
    nth i (fold_left (distribute anchor) m bv) 0 =
    fsum (map snd (levelsAt anchor i m)) (nth i bv 0).
Proof.
  induction m as [|[p q] r IH]; intros bv i Hlen Hi.
  - reflexivity.
  - cbn [fold_left].
    rewrite (IH (distribute anchor bv (p, q)) i)
      by (rewrite ?distribute_length; auto).
    rewrite nth_distribute by auto. unfold levelsAt. cbn [filter fst].
    destruct (bucketIndex p anchor =? Z.of_nat i)%Z; reflexivity.
Qed.

Lemma nth_repeat_zero (n i : nat) : nth i (repeat 0 n) 0 = 0.
Proof.
  revert i; induction n as [|n IH]; intros [|i]; simpl; auto.
Qed.

Lemma nth_bucketVolumesOf (m : JsMap.t) (i : nat) :
  (i < VISUAL_BUCKETS)%nat ->
  nth i (bucketVolumesOf m anchor) 0 = fsum (map snd (levelsAt anchor i m)) 0.
Proof.
  intros Hi; unfold bucketVolumesOf.
  rewrite (nth_fold_distribute m (repeat 0 VISUAL_BUCKETS) i)
    by (auto using repeat_length).
  rewrite nth_repeat_zero. reflexivity.
Qed.

Lemma buildResult_length (bv : list Q) (isBid : bool) (n : nat) :
  forall i cum, length (buildResult bv isBid anchor n i cum) = n.
Proof.
  induction n as [|n IH]; intros i cum; simpl; auto.
Qed.

Lemma nth_buildResult_price_quantity (bv : list Q) (isBid : bool) (n : nat) :
  forall i cum j, (j < n)%nat ->
    price (nth j (buildResult bv isBid anchor n i cum) noEntry) =
      bucketPrice isBid anchor (i + j) /\
    quantity (nth j (buildResult bv isBid anchor n i cum) noEntry) =
      nth (i + j) bv 0.
Proof.
  induction n as [|n IH]; intros i cum j Hj; [lia|].
  destruct j as [|j]; simpl.
  - rewrite Nat.add_0_r; auto.
  - replace (i + S j)%nat with (S i + j)%nat by lia. apply IH; lia.
Qed.

(** Each running total is the one before plus the bucket's own volume,
    rounded. *)
Lemma nth_buildResult_total (bv : list Q) (isBid : bool) (n : nat) :
  forall i cum j, (S j < n)%nat ->
    total (nth (S j) (buildResult bv isBid anchor n i cum) noEntry) =
    fl (total (nth j (buildResult bv isBid anchor n i cum) noEntry) +
        quantity (nth (S j) (buildResult bv isBid anchor n i cum) noEntry)).
Proof.
  induction n as [|n IH]; intros i cum j Hj; [lia|].
  destruct j as [|j].
  - destruct n; [lia|]. reflexivity.
  - cbn [buildResult].
    change (nth (S (S j)) (?x :: ?l) noEntry) with (nth (S j) l noEntry).
    change (nth (S j) (?x :: ?l) noEntry) with (nth j l noEntry).
    apply IH; lia.
Qed.

Lemma nth_buildResult_total_first (bv : list Q) (isBid : bool) (n : nat) :
  forall i cum, (0 < n)%nat ->
    total (nth 0 (buildResult bv isBid anchor n i cum) noEntry) =
    fl (cum +
        quantity (nth 0 (buildResult bv isBid anchor n i cum) noEntry)).
Proof.
  intros i cum Hn. destruct n; [lia|]. reflexivity.
Qed.

(** Every running total is a double. *)
Lemma nth_buildResult_total_rounded (bv : list Q) (isBid : bool) (n : nat) :
  forall i cum j, (j < n)%nat ->
    fl (total (nth j (buildResult bv isBid anchor n i cum) noEntry)) ==
    total (nth j (buildResult bv isBid anchor n i cum) noEntry).
Proof.
  intros i cum [|j] Hj.
  - rewrite nth_buildResult_total_first by lia. apply fl_idem.
  - rewrite nth_buildResult_total by lia. apply fl_idem.
Qed.

Lemma fold_distribute_filter (m : JsMap.t) :
  forall bv,
    fold_left (distribute anchor)
      (filter (fun l : Q * Q => inRange (bucketIndex (fst l) anchor)) m) bv =
    fold_left (distribute anchor) m bv.
Proof.
  induction m as [|[p q] r IH]; intros bv; auto.
  cbn [filter fst].
  destruct (inRange (bucketIndex p anchor)) eqn:R; cbn [fold_left].
  - apply IH.
  - rewrite IH. f_equal. unfold distribute. rewrite R. reflexivity.
Qed.

End Aggregator.

(** The index of a level is the floor of half its distance to the anchor,
    as the code computes that distance: a double. *)
Lemma bucketIndex_bounds (p anchor : Q) :
  inject_Z (bucketIndex p anchor) * AGGREGATION_BUCKET_SIZE
    <= fl (Qabs (p - anchor))
  /\ fl (Qabs (p - anchor)) <
     inject_Z (bucketIndex p anchor) * AGGREGATION_BUCKET_SIZE
     + AGGREGATION_BUCKET_SIZE.
Proof.
  unfold bucketIndex, AGGREGATION_BUCKET_SIZE.
  assert (E : fl (Qabs (fl (p - anchor)) / 2) == fl (Qabs (p - anchor)) / 2).
  { rewrite fl_half. rewrite (fl_Qabs (p - anchor)). rewrite fl_idem.
    reflexivity. }
  rewrite (Qfloor_comp _ _ E).
  set (d := fl (Qabs (p - anchor))).
  pose proof (Qfloor_le (d / 2)) as Hlo.
  pose proof (Qlt_floor (d / 2)) as Hhi.
  rewrite inject_Z_plus in Hhi.
  assert (D : d == (d / 2) * 2) by (field; discriminate).
  change (inject_Z 1) with 1 in Hhi.
  split; lra.
Qed.

Lemma bucketPrice_distance (isBid : bool) (anchor : Q) (i : nat) :
  Qabs (bucketPrice isBid anchor i - anchor) ==
  inject_Z (Z.of_nat i) * AGGREGATION_BUCKET_SIZE.
Proof.
  assert (P : 0 <= inject_Z (Z.of_nat i) * AGGREGATION_BUCKET_SIZE).
  { apply Qmult_le_0_compat; [|unfold AGGREGATION_BUCKET_SIZE; lra].
    change 0 with (inject_Z 0). rewrite <- Zle_Qle. lia. }
  destruct isBid; unfold bucketPrice.
  - rewrite Qabs_neg by lra. ring.
  - rewrite Qabs_pos by lra. ring.
Qed.

Lemma levelsAt_app (anchor : Q) (i : nat) (m1 m2 : JsMap.t) :
  levelsAt anchor i (m1 ++ m2) = levelsAt anchor i m1 ++ levelsAt anchor i m2.
Proof. apply filter_app. Qed.

(** Bucket [i] of the result: its price and its own volume. *)
Lemma aggregateOrders_nth
  (rawOrders : JsMap.t) (isBid : bool) (anchor : Q) (i : nat) :
  (i < VISUAL_BUCKETS)%nat ->
  price (nth i (aggregateOrders rawOrders isBid anchor) noEntry) =
    bucketPrice isBid anchor i
  /\ quantity (nth i (aggregateOrders rawOrders isBid anchor) noEntry) =
     fsum (map snd (levelsAt anchor i rawOrders)) 0.
Proof.
  intros Hi. unfold aggregateOrders.
  destruct (nth_buildResult_price_quantity anchor
              (bucketVolumesOf rawOrders anchor) isBid VISUAL_BUCKETS
              0%nat 0 i Hi) as [Hp Hq].
  rewrite Hp, Hq. simpl Nat.add. split; [reflexivity|].
  apply nth_bucketVolumesOf; assumption.
Qed.

(** With no negative quantity in the map, no bucket is negative and the
    running totals never go down. *)
Lemma aggregateOrders_nonneg
  (rawOrders : JsMap.t) (isBid : bool) (anchor : Q) :
  (forall l, In l rawOrders -> 0 <= snd l) ->
  (forall i : nat, (i < VISUAL_BUCKETS)%nat ->
     0 <= quantity (nth i (aggregateOrders rawOrders isBid anchor) noEntry))
  /\ cumulativeMonotone (aggregateOrders rawOrders isBid anchor).
Proof.
  intros Hpos.
  assert (Q0 : forall i : nat, (i < VISUAL_BUCKETS)%nat ->
     0 <= quantity (nth i (aggregateOrders rawOrders isBid anchor) noEntry)).
  { intros i Hi.
    destruct (aggregateOrders_nth rawOrders isBid anchor i Hi) as [_ Hq].
    rewrite Hq. apply fsum_nonneg; [lra|]. intros q Hq'.
    apply in_map_iff in Hq'. destruct Hq' as (l & <- & Hl).
    apply Hpos. unfold levelsAt in Hl. apply filter_In in Hl. tauto. }
  split; [exact Q0|].
  intros i [Hi1 Hi2].
  assert (Hlen : length (aggregateOrders rawOrders isBid anchor)
                 = VISUAL_BUCKETS) by apply buildResult_length.
  rewrite Hlen in Hi2.
  destruct i as [|j]; [lia|].
  replace (S j - 1)%nat with j by lia.
  specialize (Q0 (S j) Hi2).
  unfold aggregateOrders in *.
  rewrite nth_buildResult_total by lia.
  rewrite <- (nth_buildResult_total_rounded anchor _ isBid VISUAL_BUCKETS
                0%nat 0 j) at 1 by lia.
  apply fl_mono. lra.
Qed.

(** ** The claims on the Aggregator *)

(** C4, as amended.  When no level of the raw side map has a negative
    quantity, the cumulative totals of the buckets returned by
    [aggregateOrders] never decrease with the bucket index, for every anchor
    and either side. *)
Theorem aggregateOrders_cumulative_monotone
  (rawOrders : JsMap.t) (isBid : bool) (anchor : Q) :
  (forall level, In level rawOrders -> 0 <= snd level) ->
  cumulativeMonotone (aggregateOrders rawOrders isBid anchor).
Proof.
  intros Hpos.
  destruct (aggregateOrders_nonneg rawOrders isBid anchor Hpos) as [_ M].
  exact M.
Qed.

Lemma aggregateOrders_cumulative_monotone_witness :
  cumulativeMonotone (aggregateOrders [(99, 1); (95, 3); (97, 0)] true 100).
Proof.
  apply aggregateOrders_cumulative_monotone.
  intros level [<- | [<- | [<- | []]]]; simpl; lra.
Defined.

(** C4 as stated fails: with the single ask level 102 -> -1 and anchor 100
    the total of bucket 1 is below the total of bucket 0. *)
Lemma aggregateOrders_negative_quantity_not_monotone :
  ~ cumulativeMonotone (aggregateOrders [(102, -1)] false 100).
Proof.
  intros H. specialize (H 1%nat).
  assert (L : (1 <= 1 < length (aggregateOrders [(102, -1)] false 100)%Q)%nat)
    by (unfold aggregateOrders; rewrite buildResult_length;
        unfold VISUAL_BUCKETS; lia).
  specialize (H L). vm_compute in H. apply H. reflexivity.
Qed.

(** C5.  [aggregateOrders] returns exactly [VISUAL_BUCKETS] buckets; bucket
    [i] has price [anchor - i * width] on the bid side and
    [anchor + i * width] on the ask side, so its distance to the anchor is
    [i * width] and grows by [width] from one bucket to the next; its
    quantity is what [+=] makes of the quantities of the raw levels whose
    index [floor (|price - anchor| / width)], computed on doubles as the
    code does, is [i], added in the order of the map; and the levels whose
    index is outside [[0, N)] change nothing in the result. *)
Theorem aggregateOrders_buckets
  (rawOrders : JsMap.t) (isBid : bool) (anchor : Q) :
  length (aggregateOrders rawOrders isBid anchor) = VISUAL_BUCKETS
  /\ (forall i : nat, (i < VISUAL_BUCKETS)%nat ->
        let bucket := nth i (aggregateOrders rawOrders isBid anchor) noEntry in
        price bucket =
          (if isBid
           then anchor - inject_Z (Z.of_nat i) * AGGREGATION_BUCKET_SIZE
           else anchor + inject_Z (Z.of_nat i) * AGGREGATION_BUCKET_SIZE)
        /\ Qabs (price bucket - anchor) ==
             inject_Z (Z.of_nat i) * AGGREGATION_BUCKET_SIZE
        /\ quantity bucket = fsum (map snd (levelsAt anchor i rawOrders)) 0)
  /\ (forall i : nat, (S i < VISUAL_BUCKETS)%nat ->
        let result := aggregateOrders rawOrders isBid anchor in
        Qabs (price (nth (S i) result noEntry) - anchor) ==
        Qabs (price (nth i result noEntry) - anchor)
        + AGGREGATION_BUCKET_SIZE)
  /\ aggregateOrders
       (filter (fun l : Q * Q => inRange (bucketIndex (fst l) anchor))
          rawOrders) isBid anchor
     = aggregateOrders rawOrders isBid anchor.
Proof.
  pose proof (aggregateOrders_nth rawOrders isBid anchor) as B.
  split; [apply buildResult_length|].
  split; [|split].
  - intros i Hi bucket. subst bucket.
    destruct (B i Hi) as [Hp Hq]. rewrite Hp.
    split; [destruct isBid; reflexivity|].
    split; [apply bucketPrice_distance | exact Hq].
  - intros i Hi result. subst result.
    destruct (B i ltac:(lia)) as [Hp _].
    destruct (B (S i) Hi) as [Hp' _].
    rewrite Hp, Hp', !bucketPrice_distance.
    rewrite Nat2Z.inj_succ, <- Z.add_1_r, inject_Z_plus.
    change (inject_Z 1) with 1. ring.
  - unfold aggregateOrders, bucketVolumesOf.
    rewrite fold_distribute_filter. reflexivity.
Qed.

(** The doubles 2.3, 1.1 and 0.9 around the double 0.3: the difference
    2.3 - 0.3 is 1.9999999999999998 in doubles, so all three levels are in
    bucket 0, and their quantities are added in the order of the map. *)
Lemma aggregateOrders_buckets_witness :
  let result :=
    aggregateOrders [(fl 2.3, 5); (fl 1.1, fl 0.1); (300, 7); (fl 0.9, fl 0.2)]
      false (fl 0.3) in
  length result = 60%nat
  /\ price (nth 2 result noEntry) = fl 0.3 + inject_Z 2 * 2
  /\ quantity (nth 0 result noEntry) = fsum [5; fl 0.1; fl 0.2] 0
  /\ quantity (nth 1 result noEntry) = 0.
Proof.
  destruct (aggregateOrders_buckets
              [(fl 2.3, 5); (fl 1.1, fl 0.1); (300, 7); (fl 0.9, fl 0.2)]
              false (fl 0.3))
    as (Hlen & Hbucket & _ & _).
  split; [exact Hlen|].
  assert (L : forall i, (i < 3)%nat -> (i < VISUAL_BUCKETS)%nat)
    by (unfold VISUAL_BUCKETS; lia).
  destruct (Hbucket 2%nat (L 2%nat ltac:(lia))) as (Hp & _ & _).
  destruct (Hbucket 0%nat (L 0%nat ltac:(lia))) as (_ & _ & Hq0).
  destruct (Hbucket 1%nat (L 1%nat ltac:(lia))) as (_ & _ & Hq1).
  split; [exact Hp|]. split.
  - rewrite Hq0. vm_compute. reflexivity.
  - rewrite Hq1. vm_compute. reflexivity.
Defined.

(** C10.  The side of the anchor a level lies on plays no part in the
    bucket it goes to: a level of the bid map priced strictly above the
    anchor, or of the ask map priced strictly below it, whose distance
    index [i] (computed on doubles as the code does) is in [[0, N)] has its
    quantity added to bucket [i], on top of what the levels before it in
    the map have put there and before the levels after it; and the price
    reported for that bucket lies on the other side of the anchor, at the
    mirrored distance [i * width]. *)
Theorem aggregateOrders_ignores_side
  (before after : JsMap.t) (p q anchor : Q) (isBid : bool) :
  (if isBid then anchor < p else p < anchor) ->
  inRange (bucketIndex p anchor) = true ->
  let i := Z.to_nat (bucketIndex p anchor) in
  let bucket :=
    nth i (aggregateOrders (before ++ (p, q) :: after) isBid anchor) noEntry in
  let earlier :=
    nth i (aggregateOrders before isBid anchor) noEntry in
  quantity bucket =
    fsum (map snd (levelsAt anchor i after)) (fl (quantity earlier + q))
  /\ (if isBid then price bucket <= anchor /\ anchor < p
      else p < anchor /\ anchor <= price bucket)
  /\ Qabs (price bucket - anchor) ==
     inject_Z (Z.of_nat i) * AGGREGATION_BUCKET_SIZE.
Proof.
  intros Hside Hrange i bucket earlier.
  apply inRange_spec in Hrange.
  assert (Hi : (i < VISUAL_BUCKETS)%nat) by (subst i; lia).
  assert (Ei : bucketIndex p anchor = Z.of_nat i)
    by (subst i; rewrite Z2Nat.id; lia).
  destruct (aggregateOrders_nth (before ++ (p, q) :: after)
              isBid anchor i Hi) as [Hp Hq].
  destruct (aggregateOrders_nth before isBid anchor i Hi) as [_ Hq'].
  fold bucket in Hp, Hq. fold earlier in Hq'.
  pose proof (bucketPrice_distance isBid anchor i) as Hd.
  assert (P : 0 <= inject_Z (Z.of_nat i) * AGGREGATION_BUCKET_SIZE).
  { rewrite <- Hd. apply Qabs_nonneg. }
  split; [|split].
  - rewrite Hq, Hq'.
    assert (L : levelsAt anchor i ((p, q) :: after) =
                (p, q) :: levelsAt anchor i after).
    { unfold levelsAt. cbn [filter fst]. rewrite Ei, Z.eqb_refl.
      reflexivity. }
    rewrite levelsAt_app, L, map_app, fsum_app. reflexivity.
  - rewrite Hp. destruct isBid; unfold bucketPrice; split; lra.
  - rewrite Hp. exact Hd.
Qed.

(** A bid at the double 6.02 above the anchor 0.02: the difference is 6.0
    in doubles, and the level is added to bucket 3. *)
Lemma aggregateOrders_ignores_side_witness :
  let bucket :=
    nth 3 (aggregateOrders [(fl 0.01, 1); (fl 6.02, 4)] true (fl 0.02))
      noEntry in
  let earlier := nth 3 (aggregateOrders [(fl 0.01, 1)] true (fl 0.02)) noEntry in
  quantity bucket = fl (quantity earlier + 4)
  /\ price bucket <= fl 0.02 /\ fl 0.02 < fl 6.02.
Proof.
  assert (Hside : fl 0.02 < fl 6.02) by (vm_compute; reflexivity).
  assert (Hrange : inRange (bucketIndex (fl 6.02) (fl 0.02)) = true)
    by (vm_compute; reflexivity).
  assert (Hi : Z.to_nat (bucketIndex (fl 6.02) (fl 0.02)) = 3%nat)
    by (vm_compute; reflexivity).
  pose proof (aggregateOrders_ignores_side [(fl 0.01, 1)] [] (fl 6.02) 4
                (fl 0.02) true Hside Hrange) as H.
  cbv zeta in H. rewrite Hi in H.
  destruct H as (Hq & Hp & _).
  split; [exact Hq | exact Hp].
Defined.

(** * Properties of the price maps *)

Module JsMapFacts.
Import JsMap.

Lemma get_proper (k k' : Q) (m : t) : k == k' -> get k m = get k' m.
Proof.
  intros E. induction m as [|[k0 v0] r IH]; simpl; auto.
  rewrite IH. now rewrite E.
Qed.

Lemma get_set (k k' v : Q) (m : t) :
  get k (set k' v m) = if Qeq_bool k' k then Some v else get k m.
Proof.
  induction m as [|[k0 v0] r IH]; simpl.
  - reflexivity.
  - destruct (Qeq_bool k0 k') eqn:E; simpl.
    + apply Qeq_bool_eq in E.
      rewrite <- E. destruct (Qeq_bool k0 k); reflexivity.
    + rewrite IH. destruct (Qeq_bool k0 k) eqn:E'; auto.
      destruct (Qeq_bool k' k) eqn:E''; auto.
      apply Qeq_bool_eq in E', E''.
      assert (k0 == k') by (rewrite E', E''; reflexivity).
      apply Qeq_eq_bool in H. congruence.
Qed.

Lemma get_delete (k k' : Q) (m : t) :
  wf m ->
  get k (delete k' m) = if Qeq_bool k' k then None else get k m.
Proof.
  induction m as [|[k0 v0] r IH]; simpl; intros W.
  - destruct (Qeq_bool k' k); reflexivity.
  - destruct W as [W0 W]. destruct (Qeq_bool k0 k') eqn:E.
    + apply Qeq_bool_eq in E. rewrite <- E.
      destruct (Qeq_bool k0 k) eqn:E'; auto.
      apply Qeq_bool_eq in E'. rewrite <- (get_proper _ _ r E'). exact W0.
    + simpl. rewrite (IH W).
      destruct (Qeq_bool k0 k) eqn:E'; auto.
      destruct (Qeq_bool k' k) eqn:E''; auto.
      apply Qeq_bool_eq in E', E''.
      assert (k0 == k') by (rewrite E', E''; reflexivity).
      apply Qeq_eq_bool in H. congruence.
Qed.

Lemma wf_set (k v : Q) (m : t) : wf m -> wf (set k v m).
Proof.
  induction m as [|[k0 v0] r IH]; simpl; intros W.
  - auto.
  - destruct W as [W0 W]. destruct (Qeq_bool k0 k) eqn:E; simpl.
    + auto.
    + split; [|auto]. rewrite get_set, Qeq_bool_comm, E. exact W0.
Qed.

Lemma wf_delete (k : Q) (m : t) : wf m -> wf (delete k m).
Proof.
  induction m as [|[k0 v0] r IH]; simpl; intros W.
  - auto.
  - destruct W as [W0 W]. destruct (Qeq_bool k0 k) eqn:E; simpl.
    + auto.
    + split; [|auto]. rewrite (get_delete _ _ _ W), Qeq_bool_comm, E.
      exact W0.
Qed.

Lemma In_set (k v : Q) (m : t) (l : Q * Q) :
  In l (set k v m) -> snd l = v \/ In l m.
Proof.
  induction m as [|[k0 v0] r IH]; simpl.
  - intros [<- | []]; auto.
  - destruct (Qeq_bool k0 k); simpl.
    + intros [<- | H]; auto.
    + intros [<- | H]; auto. destruct (IH H); auto.
Qed.

Lemma In_delete (k : Q) (m : t) (l : Q * Q) :
  In l (delete k m) -> In l m.
Proof.
  induction m as [|[k0 v0] r IH]; simpl; auto.
  destruct (Qeq_bool k0 k); simpl; auto.
  intros [<- | H]; auto.
Qed.

End JsMapFacts.

(** * Properties of [processEvent] *)

Section ProcessEvent.
Import JsMap JsMapFacts.

Lemma wf_applyLevel (m : JsMap.t) (l : Level) :
  wf m -> wf (applyLevel m l).
Proof.
  destruct l as [p q]; unfold applyLevel.
  destruct (Qeq_bool q 0); auto using wf_set, wf_delete.
Qed.

Lemma wf_fold_applyLevel (ls : list Level) :
  forall m, wf m -> wf (fold_left applyLevel ls m).
Proof.
  induction ls as [|l r IH]; simpl; auto using wf_applyLevel.
Qed.

Lemma wf_applyLevels (c : option (list Level)) (m : JsMap.t) :
  wf m -> wf (applyLevels c m).
Proof.
  destruct c; simpl; auto using wf_fold_applyLevel.
Qed.

Lemma get_applyLevel (k : Q) (m : JsMap.t) (l : Level) :
  wf m ->
  get k (applyLevel m l) =
  if Qeq_bool (fst l) k
  then (if Qeq_bool (snd l) 0 then None else Some (snd l))
  else get k m.
Proof.
  destruct l as [p q]; unfold applyLevel; simpl; intros W.
  destruct (Qeq_bool q 0).
  - apply get_delete; assumption.
  - apply get_set.
Qed.

(** The entry of [k] after a list of changes is the overlay of the
    changes on the entry before. *)
Lemma get_fold_applyLevel (k : Q) (ls : list Level) :
  forall m, wf m ->
    get k (fold_left applyLevel ls m) = overlay k ls (get k m).
Proof.
  unfold overlay.
  induction ls as [|l r IH]; simpl; intros m W; auto.
  rewrite IH by (apply wf_applyLevel; assumption).
  rewrite get_applyLevel by assumption. reflexivity.
Qed.

Lemma overlay_const_or_id (k : Q) (ls : list Level) :
  (forall x y, overlay k ls x = overlay k ls y)
  \/ (forall z, overlay k ls z = z).
Proof.
  unfold overlay.
  induction ls as [|l r IH]; simpl.
  - right; reflexivity.
  - destruct (Qeq_bool (fst l) k).
    + left; reflexivity.
    + exact IH.
Qed.

Lemma overlay_idempotent (k : Q) (ls : list Level) (x : option Q) :
  overlay k ls (overlay k ls x) = overlay k ls x.
Proof.
  destruct (overlay_const_or_id k ls) as [H | H]; [apply H | now rewrite !H].
Qed.

Lemma overlay_untouched (k : Q) (ls : list Level) (x : option Q) :
  untouched k ls -> overlay k ls x = x.
Proof.
  unfold overlay, untouched. revert x.
  induction ls as [|l r IH]; simpl; intros x H; auto.
  rewrite (H l) by auto. apply IH. intros; apply H; auto.
Qed.

Lemma overlay_app (k : Q) (l1 l2 : list Level) (x : option Q) :
  overlay k (l1 ++ l2) x = overlay k l2 (overlay k l1 x).
Proof.
  unfold overlay. apply fold_left_app.
Qed.

Lemma applyLevels_idempotent (c : option (list Level)) (m : JsMap.t) :
  wf m -> equiv (applyLevels c (applyLevels c m)) (applyLevels c m).
Proof.
  intros W k. destruct c as [ls|]; simpl; auto.
  rewrite get_fold_applyLevel by (apply wf_fold_applyLevel; assumption).
  rewrite get_fold_applyLevel by assumption.
  apply overlay_idempotent.
Qed.

(** A zero-quantity change to [p] that no later change of the list
    overrides leaves [p] without entry. *)
Lemma applyLevels_zero (before after : list Level) (p q : Q) (m : JsMap.t) :
  wf m -> q == 0 -> untouched p after ->
  get p (applyLevels (Some (before ++ (p, q) :: after)) m) = None.
Proof.
  intros W Hq Hafter. simpl.
  rewrite get_fold_applyLevel by assumption.
  rewrite overlay_app. change ((p, q) :: after) with ([(p, q)] ++ after).
  rewrite overlay_app, overlay_untouched by assumption.
  unfold overlay; simpl.
  rewrite Qeq_bool_refl. apply Qeq_eq_bool in Hq. rewrite Hq. reflexivity.
Qed.

End ProcessEvent.

(** Every book a session can reach is a pair of maps without repeated
    keys. *)
Lemma wf_loadLevels (items : list Level) :
  forall m, JsMap.wf m -> JsMap.wf (loadLevels items m).
Proof.
  unfold loadLevels.
  induction items as [|l r IH]; simpl; intros m W; auto.
  apply IH. apply JsMapFacts.wf_set. exact W.
Qed.

Lemma storeWf_fold_processEvent (events : list DepthUpdate.t) :
  forall s, storeWf s -> storeWf (fold_left processEvent events s).
Proof.
  induction events as [|e r IH]; simpl; intros s [Wb Wa]; [split; auto|].
  apply IH. split; simpl; apply wf_applyLevels; assumption.
Qed.

Lemma storeWf_runCallbacks (n : nat) (now : Z) :
  forall s, storeWf s -> storeWf (runCallbacks n now s).
Proof.
  induction n as [|n IH]; simpl; intros s W; auto.
Qed.

Lemma storeWf_step (s : Subscription) (i : Input) :
  storeWf s -> storeWf (step s i).
Proof.
  intros W. destruct i as [[e|] | data | body | | now]; simpl; auto.
  - destruct (hasSnapshot s); simpl; auto.
    assert (W' : storeWf (processEvent s e))
      by (apply (storeWf_fold_processEvent [e] s W)).
    destruct (processing s); simpl; auto.
  - unfold fetchSnapshot.
    match goal with
    | |- storeWf {| bidMap := bidMap (fold_left processEvent ?l ?s0) |} =>
        assert (W' : storeWf (fold_left processEvent l s0))
    end.
    { apply storeWf_fold_processEvent. destruct W as [Wb Wa].
      split; simpl; apply wf_loadLevels; assumption. }
    exact W'.
  - destruct W as [Wb Wa].
    destruct body as [id [b|] [a|]]; unfold fetchSnapshotBody;
      cbn [DepthBody.bids DepthBody.asks DepthBody.lastUpdateId];
      try (split; simpl; auto using wf_loadLevels; fail).
    match goal with
    | |- storeWf {| bidMap := bidMap (fold_left processEvent ?l ?s0) |} =>
        assert (W' : storeWf (fold_left processEvent l s0))
    end.
    { apply storeWf_fold_processEvent.
      split; simpl; apply wf_loadLevels; assumption. }
    exact W'.
  - unfold animationFrame. apply storeWf_runCallbacks. exact W.
Qed.

Lemma storeWf_run (inputs : list Input) :
  forall s, storeWf s -> storeWf (run s inputs).
Proof.
  unfold run.
  induction inputs as [|i r IH]; simpl; intros s W; auto.
  apply IH. apply storeWf_step. exact W.
Qed.

(** C7.  On a store (two maps without repeated keys) a change with
    quantity 0 for a price, when no later change of the same event is
    about that price, leaves the side map without that key; and applying an
    event a second time leaves every price of both sides with the entry it
    had after the first time. *)
Theorem processEvent_zero_removes_and_is_idempotent
  (s : Subscription) (e : DepthUpdate.t) :
  JsMap.wf (bidMap s) -> JsMap.wf (askMap s) ->
  (forall before after p q, q == 0 -> untouched p after ->
     (DepthUpdate.b e = Some (before ++ (p, q) :: after) ->
      JsMap.get p (bidMap (processEvent s e)) = None)
     /\ (DepthUpdate.a e = Some (before ++ (p, q) :: after) ->
         JsMap.get p (askMap (processEvent s e)) = None))
  /\ sameStore (processEvent (processEvent s e) e) (processEvent s e).
Proof.
  intros Wb Wa. split.
  - intros before after p q Hq Hafter. split; intros E; simpl; rewrite E;
      apply applyLevels_zero; assumption.
  - split; simpl; apply applyLevels_idempotent; assumption.
Qed.

Lemma processEvent_zero_removes_and_is_idempotent_witness :
  let s := synchronisedAt [(99, 1); (98, 2)] [(101, 2)] in
  let e := depthUpdate 101 102 [(97, 1); (99, 0); (98, 5)] [(101, 0)] in
  JsMap.get 99 (bidMap (processEvent s e)) = None
  /\ sameStore (processEvent (processEvent s e) e) (processEvent s e).
Proof.
  intros s e.
  assert (Wb : JsMap.wf (bidMap s)) by (simpl; auto).
  assert (Wa : JsMap.wf (askMap s)) by (simpl; auto).
  destruct (processEvent_zero_removes_and_is_idempotent s e Wb Wa)
    as [Hzero Hidem].
  split; [|exact Hidem].
  assert (Hq : 0 == 0) by reflexivity.
  assert (Hafter : untouched 99 [(98, 5)]).
  { intros l [<- | []]. reflexivity. }
  destruct (Hzero [(97, 1)] [(98, 5)] 99 0 Hq Hafter) as [Hb _].
  apply Hb. reflexivity.
Defined.

(** * Properties of [emitUpdate] *)

Section EmitUpdate.

Lemma Qgt_bool_true (x y : Q) : Qgt_bool x y = true <-> y < x.
Proof.
  unfold Qgt_bool. rewrite negb_true_iff.
  split.
  - intros H. apply Qnot_le_lt. intros L.
    apply Qle_bool_iff in L. congruence.
  - intros H. destruct (Qle_bool x y) eqn:E; auto.
    apply Qle_bool_iff in E. lra.
Qed.

Lemma Qgt_bool_false (x y : Q) : Qgt_bool x y = false <-> x <= y.
Proof.
  unfold Qgt_bool. rewrite negb_false_iff. apply Qle_bool_iff.
Qed.

(** The scan for the best bid returns its seed or a key, and nothing it
    has seen is above what it returns. *)
Lemma scan_bid (ks : list Q) :
  forall seed,
    let r := fold_left bidTurn ks seed in
    seed <= r /\ (forall k, In k ks -> k <= r) /\ (r = seed \/ In r ks).
Proof.
  induction ks as [|k0 ks IH]; intros seed; simpl.
  - split; [lra|]. split; [tauto | auto].
  - destruct (IH (bidTurn seed k0)) as (H1 & H2 & H3).
    assert (B : seed <= bidTurn seed k0 /\ k0 <= bidTurn seed k0
                /\ (bidTurn seed k0 = seed \/ bidTurn seed k0 = k0)).
    { unfold bidTurn. destruct (Qgt_bool k0 seed) eqn:E.
      - apply Qgt_bool_true in E. repeat split; try lra. auto.
      - apply Qgt_bool_false in E. repeat split; try lra. auto. }
    destruct B as (B1 & B2 & B3).
    split; [lra|]. split.
    + intros k [<- | Hk]; [lra | auto].
    + destruct H3 as [H3 | H3]; [|auto].
      rewrite H3. destruct B3 as [-> | ->]; auto.
Qed.

(** The scan for the best ask, started from [Infinity]. *)
Lemma scan_ask_from (ks : list Q) :
  forall a0,
    exists a, fold_left askTurn ks (Fin a0) = Fin a
              /\ a <= a0 /\ (forall k, In k ks -> a <= k)
              /\ (a = a0 \/ In a ks).
Proof.
  induction ks as [|k0 ks IH]; intros a0; simpl.
  - exists a0. split; [reflexivity|]. split; [lra|]. split; [tauto|auto].
  - assert (B : exists a1, askTurn (Fin a0) k0 = Fin a1 /\ a1 <= a0
                           /\ a1 <= k0 /\ (a1 = a0 \/ a1 = k0)).
    { unfold askTurn, ltx_bool. fold (Qgt_bool a0 k0).
      destruct (Qgt_bool a0 k0) eqn:E.
      - apply Qgt_bool_true in E. exists k0. repeat split; try lra. auto.
      - apply Qgt_bool_false in E. exists a0. repeat split; try lra. auto. }
    destruct B as (a1 & -> & B1 & B2 & B3).
    destruct (IH a1) as (a & E & H1 & H2 & H3).
    exists a. split; [exact E|]. split; [lra|]. split.
    + intros k [<- | Hk]; [lra | auto].
    + destruct H3 as [H3 | H3]; [|auto].
      rewrite H3. destruct B3 as [-> | ->]; auto.
Qed.

Lemma scanBestAsk_min (m : JsMap.t) :
  m <> [] -> exists a, scanBestAsk m = Fin a /\ isMinKey m a.
Proof.
  destruct m as [|[k0 v0] r]; [congruence|]. intros _.
  unfold scanBestAsk, isMinKey. simpl.
  change (askTurn Infinity k0) with (Fin k0).
  destruct (scan_ask_from (JsMap.keys r) k0) as (a & E & H1 & H2 & H3).
  exists a. split; [exact E|]. split.
  - destruct H3 as [-> | H3]; auto.
  - intros k [<- | Hk]; auto.
Qed.

(** The best-bid scan finds the greatest key when that key is above its
    seed 0, and stays at 0 otherwise. *)
Lemma scanBestBid_spec (m : JsMap.t) :
  0 <= scanBestBid m
  /\ (forall k, In k (JsMap.keys m) -> k <= scanBestBid m)
  /\ (scanBestBid m = 0 \/ In (scanBestBid m) (JsMap.keys m)).
Proof.
  apply (scan_bid (JsMap.keys m) 0).
Qed.

End EmitUpdate.

Lemma emitUpdate_empty (now : Z) (bm am : JsMap.t) :
  bm = [] \/ am = [] -> emitUpdate now bm am = None.
Proof.
  intros [-> | ->]; unfold emitUpdate; simpl; auto.
  rewrite orb_true_r. reflexivity.
Qed.

(** What [emitUpdate] does when neither map is empty. *)
Lemma emitUpdate_nonempty (now : Z) (bm am : JsMap.t) :
  bm <> [] -> am <> [] ->
  exists bestAsk, isMinKey am bestAsk /\
    emitUpdate now bm am =
    if Qeq_bool (scanBestBid bm) 0 then None
    else Some {| timestamp := now;
                 midPrice := (scanBestBid bm + bestAsk) / 2;
                 bids := aggregateOrders bm true
                           ((scanBestBid bm + bestAsk) / 2);
                 asks := aggregateOrders am false
                           ((scanBestBid bm + bestAsk) / 2) |}.
Proof.
  intros Hb Ha.
  destruct (scanBestAsk_min am Ha) as (bestAsk & E & Hmin).
  exists bestAsk. split; [exact Hmin|].
  unfold emitUpdate. rewrite E.
  destruct bm; [congruence|]. destruct am; [congruence|]. reflexivity.
Qed.

(** C6.  [emitUpdate] produces no snapshot when either side map is empty;
    a snapshot it produces has mid price (greatest bid key + least ask
    key) / 2, and it does produce one when the ask map is not empty and the
    greatest bid key is positive; bid map {99: 1} and ask map {101: 1} give
    mid price 100, and after the only ask level is removed nothing is
    delivered until an ask level is there again. *)
Theorem emitUpdate_mid_price (now : Z) (bm am : JsMap.t) :
  ((bm = [] \/ am = []) -> emitUpdate now bm am = None)
  /\ (forall snapshot, emitUpdate now bm am = Some snapshot ->
        exists bestBid bestAsk,
          isMaxKey bm bestBid /\ isMinKey am bestAsk
          /\ midPrice snapshot = (bestBid + bestAsk) / 2)
  /\ (forall bestBid, isMaxKey bm bestBid -> 0 < bestBid -> am <> [] ->
        exists snapshot, emitUpdate now bm am = Some snapshot)
  /\ (exists snapshot,
        emitUpdate now [(99, 1)] [(101, 1)] = Some snapshot
        /\ midPrice snapshot == 100)
  /\ (let removeAsk :=
        WsMessage (DepthUpdateMsg (depthUpdate 101 101 [] [(101, 0)])) in
      let addAsk :=
        WsMessage (DepthUpdateMsg (depthUpdate 102 102 [] [(103, 1)])) in
      let s := synchronisedAt [(99, 1)] [(101, 1)] in
      delivered (run s [removeAsk; AnimationFrame now]) = []
      /\ exists snapshot,
           delivered (run s [removeAsk; AnimationFrame now;
                             addAsk; AnimationFrame now]) = [snapshot]
           /\ midPrice snapshot == 101).
Proof.
  split; [apply emitUpdate_empty|].
  split; [|split; [|split]].
  - intros snapshot E.
    destruct bm as [|l0 bm']; [discriminate E|].
    destruct am as [|l1 am']; [rewrite emitUpdate_empty in E by auto;
                               discriminate E|].
    set (bm := l0 :: bm') in *. set (am := l1 :: am') in *.
    destruct (emitUpdate_nonempty now bm am) as (bestAsk & Hmin & E');
      try (subst bm am; discriminate).
    rewrite E' in E.
    destruct (Qeq_bool (scanBestBid bm) 0) eqn:Z0; [discriminate E|].
    injection E as <-. exists (scanBestBid bm), bestAsk.
    split; [|split; [exact Hmin | reflexivity]].
    destruct (scanBestBid_spec bm) as (_ & Hmax & [H0 | Hin]).
    + rewrite H0 in Z0. discriminate Z0.
    + split; assumption.
  - intros bestBid [Hin Hmax] Hpos Ha.
    assert (Hb : bm <> []) by (destruct bm; [destruct Hin | discriminate]).
    destruct (emitUpdate_nonempty now bm am Hb Ha) as (bestAsk & _ & E).
    rewrite E.
    destruct (scanBestBid_spec bm) as (_ & Hge & _).
    specialize (Hge bestBid Hin).
    destruct (Qeq_bool (scanBestBid bm) 0) eqn:Z0.
    + apply Qeq_bool_eq in Z0. lra.
    + eexists; reflexivity.
  - eexists. split; [reflexivity|]. reflexivity.
  - split; [reflexivity|]. eexists. split; [reflexivity|]. reflexivity.
Qed.

Lemma emitUpdate_mid_price_witness :
  exists snapshot,
    emitUpdate 0 [(99, 1); (97, 4)] [(105, 1); (101, 3)] = Some snapshot
    /\ exists bestBid bestAsk,
         isMaxKey [(99, 1); (97, 4)] bestBid
         /\ isMinKey [(105, 1); (101, 3)] bestAsk
         /\ midPrice snapshot = (bestBid + bestAsk) / 2.
Proof.
  destruct (emitUpdate_mid_price 0 [(99, 1); (97, 4)] [(105, 1); (101, 3)])
    as (_ & Hmid & Hsome & _).
  assert (Hmax : isMaxKey [(99, 1); (97, 4)] 99).
  { split; [simpl; auto|].
    intros k [<- | [<- | []]]; unfold Qle; simpl; lia. }
  assert (Hpos : 0 < 99) by reflexivity.
  assert (Ha : [(105, 1); (101, 3)] <> []) by discriminate.
  destruct (Hsome 99 Hmax Hpos Ha) as (snapshot & E).
  exists snapshot. split; [exact E | exact (Hmid snapshot E)].
Defined.

(** C9.  A bid map that is not empty but has no positive key gets no
    snapshot out of [emitUpdate], whatever the ask map: the scan for the
    best bid starts from 0, stays at 0, and the test [bestBid === 0]
    returns early.  So emission is withheld in cases where neither map is
    empty. *)
Theorem emitUpdate_withheld_without_positive_bid
  (now : Z) (bm am : JsMap.t) :
  bm <> [] -> (forall k, In k (JsMap.keys bm) -> k <= 0) ->
  emitUpdate now bm am = None.
Proof.
  intros Hb Hkeys.
  destruct am as [|l1 am']; [apply emitUpdate_empty; auto|].
  destruct (emitUpdate_nonempty now bm (l1 :: am') Hb) as (bestAsk & _ & E);
    [discriminate|].
  rewrite E.
  destruct (scanBestBid_spec bm) as (Hge & _ & [H0 | Hin]).
  - rewrite H0. reflexivity.
  - specialize (Hkeys _ Hin).
    assert (Z0 : scanBestBid bm == 0) by lra.
    apply Qeq_eq_bool in Z0. rewrite Z0. reflexivity.
Qed.

Lemma emitUpdate_withheld_without_positive_bid_witness :
  [(0, 1)] <> ([] : JsMap.t) /\ [(101, 1)] <> ([] : JsMap.t)
  /\ emitUpdate 0 [(0, 1)] [(101, 1)] = None.
Proof.
  split; [discriminate|]. split; [discriminate|].
  apply emitUpdate_withheld_without_positive_bid.
  - discriminate.
  - intros k [<- | []]. unfold Qle; simpl; lia.
Defined.

(** * Properties of the subscription *)

Section Subscription.
Import JsMapFacts.

(** [processEvent] touches the two maps only. *)
Lemma fold_processEvent_fields (events : list DepthUpdate.t) :
  forall s,
    let s' := fold_left processEvent events s in
    eventBuffer s' = eventBuffer s /\ hasSnapshot s' = hasSnapshot s
    /\ lastUpdateId s' = lastUpdateId s /\ processing s' = processing s
    /\ animationFrames s' = animationFrames s
    /\ delivered s' = delivered s.
Proof.
  induction events as [|e r IH]; intros s; simpl.
  - repeat split.
  - destruct (IH (processEvent s e)) as (H1 & H2 & H3 & H4 & H5 & H6).
    simpl in *. repeat split; assumption.
Qed.

Lemma fold_processEvent_app (l1 l2 : list DepthUpdate.t) (s : Subscription) :
  fold_left processEvent (l1 ++ l2) s =
  fold_left processEvent l2 (fold_left processEvent l1 s).
Proof. apply fold_left_app. Qed.

(** The book after a list of events depends on the book before only. *)
Lemma fold_processEvent_maps (events : list DepthUpdate.t) :
  forall s1 s2,
    bidMap s1 = bidMap s2 -> askMap s1 = askMap s2 ->
    bidMap (fold_left processEvent events s1) =
      bidMap (fold_left processEvent events s2)
    /\ askMap (fold_left processEvent events s1) =
      askMap (fold_left processEvent events s2).
Proof.
  induction events as [|e r IH]; intros s1 s2 Hb Ha; simpl; auto.
  apply IH; simpl; congruence.
Qed.

(** The callbacks of a display tick leave the book alone. *)
Lemma runCallbacks_fields (n : nat) (now : Z) :
  forall s,
    let s' := runCallbacks n now s in
    bidMap s' = bidMap s /\ askMap s' = askMap s
    /\ eventBuffer s' = eventBuffer s /\ hasSnapshot s' = hasSnapshot s
    /\ lastUpdateId s' = lastUpdateId s
    /\ animationFrames s' = animationFrames s.
Proof.
  induction n as [|n IH]; intros s; simpl.
  - repeat split.
  - destruct (IH (frameCallback now s)) as (H1 & H2 & H3 & H4 & H5 & H6).
    simpl in *. repeat split; assumption.
Qed.

(** Before the snapshot the handler only buffers. *)
Lemma receive_buffers (events : list DepthUpdate.t) :
  forall s, hasSnapshot s = false ->
    receive s events =
    {| bidMap := bidMap s;
       askMap := askMap s;
       eventBuffer := eventBuffer s ++ events;
       hasSnapshot := false;
       lastUpdateId := lastUpdateId s;
       processing := processing s;
       animationFrames := animationFrames s;
       delivered := delivered s |}.
Proof.
  unfold receive.
  induction events as [|e r IH]; intros s H; simpl.
  - rewrite app_nil_r. destruct s; simpl in *; congruence.
  - rewrite H; simpl. rewrite IH by reflexivity. simpl.
    rewrite <- app_assoc. reflexivity.
Qed.

(** After the snapshot the handler applies every event and keeps one
    callback queued. *)
Lemma onmessage_synchronised (s : Subscription) (e : DepthUpdate.t) :
  hasSnapshot s = true ->
  let s' := onmessage (DepthUpdateMsg e) s in
  bidMap s' = applyLevels (DepthUpdate.b e) (bidMap s)
  /\ askMap s' = applyLevels (DepthUpdate.a e) (askMap s)
  /\ eventBuffer s' = eventBuffer s /\ hasSnapshot s' = true
  /\ lastUpdateId s' = lastUpdateId s /\ processing s' = true
  /\ animationFrames s' =
     (if processing s then animationFrames s else S (animationFrames s))
  /\ delivered s' = delivered s.
Proof.
  intros H. simpl. rewrite H. simpl.
  destruct (processing s) eqn:P; simpl; repeat split; auto.
Qed.

Lemma step_hasSnapshot (s : Subscription) (i : Input) :
  hasSnapshot s = true -> hasSnapshot (step s i) = true.
Proof.
  intros H. destruct i as [[e|] | data | body | | now]; simpl; auto.
  - apply (onmessage_synchronised s e H).
  - unfold fetchSnapshot. simpl.
    match goal with
    | |- hasSnapshot (fold_left processEvent ?l ?s0) = true =>
        destruct (fold_processEvent_fields l s0) as (_ & E & _)
    end.
    rewrite E. reflexivity.
  - destruct body as [id [b|] [a|]]; simpl; auto.
    match goal with
    | |- hasSnapshot (fold_left processEvent ?l ?s0) = true =>
        destruct (fold_processEvent_fields l s0) as (_ & E & _)
    end.
    rewrite E. reflexivity.
  - unfold animationFrame.
    match goal with
    | |- hasSnapshot (runCallbacks ?n ?t ?s0) = true =>
        destruct (runCallbacks_fields n t s0) as (_ & _ & _ & E & _)
    end.
    rewrite E. exact H.
Qed.

Lemma step_throttleInv (s : Subscription) (i : Input) :
  throttleInv s -> throttleInv (step s i).
Proof.
  unfold throttleInv. intros H.
  destruct i as [[e|] | data | body | | now]; simpl; auto.
  - destruct (hasSnapshot s); simpl; auto.
    destruct (processing s) eqn:P; simpl; rewrite ?P, ?H; auto.
  - unfold fetchSnapshot. simpl.
    match goal with
    | |- context [fold_left processEvent ?l ?s0] =>
        destruct (fold_processEvent_fields l s0)
          as (_ & _ & _ & E1 & E2 & _)
    end.
    rewrite E1, E2. simpl. exact H.
  - destruct body as [id [b|] [a|]]; simpl; auto.
    match goal with
    | |- context [fold_left processEvent ?l ?s0] =>
        destruct (fold_processEvent_fields l s0)
          as (_ & _ & _ & E1 & E2 & _)
    end.
    rewrite E1, E2. simpl. exact H.
  - unfold animationFrame. rewrite H.
    destruct (processing s) eqn:P; simpl; auto.
Qed.

Lemma run_throttleInv (inputs : list Input) :
  forall s, throttleInv s -> throttleInv (run s inputs).
Proof.
  unfold run.
  induction inputs as [|i r IH]; intros s H; simpl; auto.
  apply IH. apply step_throttleInv. exact H.
Qed.

Lemma receive_synchronised (events : list DepthUpdate.t) :
  forall s, hasSnapshot s = true -> throttleInv s ->
    let s' := receive s events in
    hasSnapshot s' = true /\ throttleInv s'
    /\ bidMap s' = bidMap (fold_left processEvent events s)
    /\ askMap s' = askMap (fold_left processEvent events s)
    /\ delivered s' = delivered s
    /\ (events <> [] -> processing s' = true).
Proof.
  induction events as [|e r IH]; intros s H T.
  - unfold receive; simpl. repeat split; auto; congruence.
  - change (receive s (e :: r))
      with (receive (onmessage (DepthUpdateMsg e) s) r).
    change (fold_left processEvent (e :: r) s)
      with (fold_left processEvent r (processEvent s e)).
    destruct (onmessage_synchronised s e H)
      as (Eb & Ea & _ & Eh & _ & Ep & _ & Ed).
    set (s1 := onmessage (DepthUpdateMsg e) s) in *.
    assert (T1 : throttleInv s1)
      by (apply (step_throttleInv s (WsMessage (DepthUpdateMsg e)) T)).
    destruct (IH s1 Eh T1) as (H1 & H2 & H3 & H4 & H5 & H6).
    destruct (fold_processEvent_maps r s1 (processEvent s e) Eb Ea)
      as [Sb Sa].
    cbv zeta. rewrite H3, H4, H5, Sb, Sa.
    repeat split; auto.
    intros _. destruct r as [|e' r'].
    + exact Ep.
    + apply H6. discriminate.
Qed.

End Subscription.

(** * Quantities in the book *)

Section Quantities.
Import JsMapFacts.

Lemma positive_applyLevel (m : JsMap.t) (l : Level) :
  positive m -> 0 <= snd l -> positive (applyLevel m l).
Proof.
  destruct l as [p q]; unfold applyLevel, positive; simpl; intros Hm Hq l Hl.
  destruct (Qeq_bool q 0) eqn:E.
  - apply Hm. eapply In_delete; eassumption.
  - apply Qeq_bool_neq in E.
    destruct (In_set _ _ _ _ Hl) as [-> | Hin]; [lra | auto].
Qed.

(** An entry of quantity 0 is never written: one found after a change was
    there before it. *)
Lemma zero_applyLevel (m : JsMap.t) (l x : Level) :
  In x (applyLevel m l) -> snd x == 0 -> In x m.
Proof.
  destruct l as [p q]; unfold applyLevel; intros Hx Hz.
  destruct (Qeq_bool q 0) eqn:E.
  - eapply In_delete; eassumption.
  - apply Qeq_bool_neq in E.
    destruct (In_set _ _ _ _ Hx) as [Ex | Hin]; [|exact Hin].
    rewrite Ex in Hz. contradiction.
Qed.

Lemma positive_applyLevels (c : option (list Level)) (m : JsMap.t) :
  positive m -> nonnegChanges c -> positive (applyLevels c m).
Proof.
  destruct c as [ls|]; simpl; auto. revert m.
  induction ls as [|l r IH]; simpl; intros m Hm Hc; auto.
  apply IH.
  - apply positive_applyLevel; auto.
  - intros; apply Hc; auto.
Qed.

Lemma zero_applyLevels (c : option (list Level)) (m : JsMap.t) (x : Level) :
  In x (applyLevels c m) -> snd x == 0 -> In x m.
Proof.
  destruct c as [ls|]; simpl; auto. revert m.
  induction ls as [|l r IH]; simpl; intros m Hx Hz; auto.
  apply (zero_applyLevel m l x); [|exact Hz]. apply IH; assumption.
Qed.

Lemma positive_loadLevels (items : list Level) :
  forall m, positive m -> positiveLevels items ->
    positive (loadLevels items m).
Proof.
  unfold loadLevels.
  induction items as [|[p q] r IH]; simpl; intros m Hm Hi; auto.
  apply IH.
  - intros l Hl. destruct (In_set _ _ _ _ Hl) as [-> | Hin]; [|auto].
    apply (Hi (p, q)). left; reflexivity.
  - intros l Hl; apply Hi. right; assumption.
Qed.

Lemma storePositive_processEvent (s : Subscription) (e : DepthUpdate.t) :
  storePositive s -> plausibleEvent e -> storePositive (processEvent s e).
Proof.
  intros [Hb Ha] [Eb Ea]. split; simpl; apply positive_applyLevels; auto.
Qed.

Lemma storePositive_fold_processEvent (events : list DepthUpdate.t) :
  forall s, storePositive s -> Forall plausibleEvent events ->
    storePositive (fold_left processEvent events s).
Proof.
  induction events as [|e r IH]; simpl; intros s Hs Hev; auto.
  inversion Hev; subst. apply IH; auto.
  apply storePositive_processEvent; assumption.
Qed.

Lemma Forall_filter {A : Type} (P : A -> Prop) (f : A -> bool) (l : list A) :
  Forall P l -> Forall P (filter f l).
Proof.
  induction 1 as [|x r Hx Hr IH]; simpl; auto.
  destruct (f x); auto.
Qed.

Lemma step_plausibleState (s : Subscription) (i : Input) :
  plausibleState s -> plausible i -> plausibleState (step s i).
Proof.
  intros [Hs Hbuf] Hi.
  destruct i as [[e|] | data | body | | now]; simpl in *;
    try (split; assumption).
  - destruct (hasSnapshot s); simpl.
    + assert (P := storePositive_processEvent s e Hs Hi).
      destruct (processing s); simpl; split; auto.
    + split; [exact Hs|]. apply Forall_app; auto.
  - destruct Hi as [Hbids Hasks], Hs as [Hb Ha].
    unfold fetchSnapshot; simpl.
    match goal with
    | |- plausibleState
           {| bidMap := bidMap (fold_left processEvent ?l ?s0) |} =>
        assert (P : storePositive (fold_left processEvent l s0))
    end.
    { apply storePositive_fold_processEvent.
      - split; simpl; apply positive_loadLevels; assumption.
      - apply Forall_filter; assumption. }
    split; [exact P | constructor].
  - destruct Hi as [Hbids Hasks], Hs as [Hb Ha].
    destruct body as [id [b|] [a|]]; unfold fetchSnapshotBody; simpl in *.
    + match goal with
      | |- plausibleState
             {| bidMap := bidMap (fold_left processEvent ?l ?s0) |} =>
          assert (P : storePositive (fold_left processEvent l s0))
      end.
      { apply storePositive_fold_processEvent.
        - split; simpl; apply positive_loadLevels; assumption.
        - apply Forall_filter; assumption. }
      split; [exact P | constructor].
    + split; [|exact Hbuf].
      split; simpl; [apply positive_loadLevels|]; assumption.
    + split; [split; assumption | exact Hbuf].
    + split; [split; assumption | exact Hbuf].
  - unfold animationFrame.
    match goal with
    | |- plausibleState (runCallbacks ?n ?t ?s0) =>
        destruct (runCallbacks_fields n t s0) as (E1 & E2 & E3 & _)
    end.
    unfold plausibleState, storePositive. rewrite E1, E2, E3.
    destruct Hs; simpl; auto.
Qed.

Lemma run_plausibleState (inputs : list Input) :
  forall s, plausibleState s -> Forall plausible inputs ->
    plausibleState (run s inputs).
Proof.
  unfold run.
  induction inputs as [|i r IH]; simpl; intros s Hs Hin; auto.
  inversion Hin; subst. apply IH; auto using step_plausibleState.
Qed.

End Quantities.

(** C2, as amended.  When every quantity of the depth snapshot is above 0
    and no change list carries a negative quantity, every entry of either
    side map has a quantity above 0 after every input of the session, in
    particular after the snapshot handler and after each applied event; and,
    whatever the quantities, an event never puts an entry of quantity 0 into
    a book: an entry of quantity 0 found in a side map after an event was
    in that map before the event. *)
Theorem store_positive_on_plausible_inputs (inputs : list Input) :
  (Forall plausible inputs -> storePositive (run subscribe inputs))
  /\ (forall (s : Subscription) (e : DepthUpdate.t) (x : Level),
        snd x == 0 ->
        (In x (bidMap (processEvent s e)) -> In x (bidMap s))
        /\ (In x (askMap (processEvent s e)) -> In x (askMap s))).
Proof.
  split.
  - intros H. apply (run_plausibleState inputs subscribe); [|exact H].
    split; [|constructor]. split; intros l [].
  - intros s e x Hz. split; simpl; intros Hx;
      eapply zero_applyLevels; eassumption.
Qed.

Lemma store_positive_on_plausible_inputs_witness :
  storePositive
    (run subscribe
       [WsMessage (DepthUpdateMsg (depthUpdate 95 102 [(98, 2)] []));
        SnapshotArrived (Depth.mk 100 [(99, 1); (98, 7)] [(101, 1)]);
        WsMessage (DepthUpdateMsg (depthUpdate 103 104 [(99, 0)] [(102, 3)]));
        AnimationFrame 0]).
Proof.
  apply store_positive_on_plausible_inputs.
  repeat constructor; simpl; each_level.
Defined.

(** C2 as stated fails twice: a level of quantity 0 in the depth snapshot
    is stored as it is, and so is a negative quantity of a change list. *)
Lemma store_not_positive :
  ~ storePositive
      (run subscribe
         [SnapshotArrived (Depth.mk 100 [(99, 0)] [(101, 1)])])
  /\ ~ storePositive
         (run subscribe
            [SnapshotArrived (Depth.mk 100 [(99, 1)] [(101, 1)]);
             WsMessage (DepthUpdateMsg (depthUpdate 101 101 [(98, -1)] []))]).
Proof.
  split; intros [Hb _].
  - specialize (Hb (99, 0)). simpl in Hb.
    assert (F : 0 < 0) by (apply Hb; auto). lra.
  - specialize (Hb (98, -1)). simpl in Hb.
    assert (F : 0 < -1) by (apply Hb; auto). lra.
Qed.

(** * Synchronisation *)

(** C3, as amended.  When the depth snapshot arrives, a buffered event
    with [u <= lastUpdateId] of the snapshot is discarded and the others are
    applied in arrival order, on top of the maps loaded from the snapshot;
    the buffer is emptied; [lastUpdateId] holds the snapshot's
    [lastUpdateId] and is not advanced by the events applied.  With
    [lastUpdateId = 100] and the buffered event [U = 95], [u = 102], the
    event is applied and [lastUpdateId] stays 100. *)
Theorem synchronise_replays_buffer
  (buffer : list DepthUpdate.t) (e : DepthUpdate.t) (data : Depth.t) :
  let s := synchronise buffer data in
  let s' := synchronise (buffer ++ [e]) data in
  (hasSnapshot s = true /\ eventBuffer s = []
   /\ lastUpdateId s = Some (Depth.lastUpdateId data))
  /\ (bidMap (synchronise [] data) = loadLevels (Depth.bids data) JsMap.empty
      /\ askMap (synchronise [] data)
         = loadLevels (Depth.asks data) JsMap.empty)
  /\ (if (DepthUpdate.u e <=? Depth.lastUpdateId data)%Z
      then bidMap s' = bidMap s /\ askMap s' = askMap s
      else bidMap s' = applyLevels (DepthUpdate.b e) (bidMap s)
           /\ askMap s' = applyLevels (DepthUpdate.a e) (askMap s))
  /\ (let first := depthUpdate 95 102 [(98, 2)] [] in
      let after := synchronise [first] (Depth.mk 100 [(99, 1)] [(101, 1)]) in
      bidMap after = [(99, 1); (98, 2)]
      /\ lastUpdateId after = Some 100%Z).
Proof.
  intros s s'. subst s s'. unfold synchronise.
  rewrite !receive_buffers by reflexivity. simpl app.
  unfold fetchSnapshot. cbn [bidMap askMap eventBuffer hasSnapshot lastUpdateId
    processing animationFrames delivered subscribe].
  split; [|split; [|split]].
  - match goal with
    | |- context [fold_left processEvent ?l ?s0] =>
        destruct (fold_processEvent_fields l s0) as (_ & E1 & E2 & _)
    end.
    rewrite E1, E2. repeat split.
  - split; reflexivity.
  - rewrite filter_app, fold_processEvent_app. cbn [filter].
    rewrite Z.leb_antisym.
    match goal with
    | |- context [fold_left processEvent ?l
                    (mkSubscription ?bm ?am (buffer ++ [e]) ?h ?i ?p ?f ?d)] =>
        destruct (fold_processEvent_maps l
                    (mkSubscription bm am (buffer ++ [e]) h i p f d)
                    (mkSubscription bm am buffer h i p f d)
                    eq_refl eq_refl) as [Sb Sa]
    end.
    destruct (Depth.lastUpdateId data <? DepthUpdate.u e)%Z;
      cbn [negb fold_left processEvent with_maps bidMap askMap];
      rewrite Sb, Sa; split; reflexivity.
  - split; reflexivity.
Qed.

(** C3 as stated fails on its own example: the event [U = 95], [u = 102]
    is applied on the snapshot with [lastUpdateId = 100], and
    [lastUpdateId] is then 100, not 102. *)
Lemma synchronise_does_not_advance_lastUpdateId :
  let first := depthUpdate 95 102 [(98, 2)] [] in
  let after := synchronise [first] (Depth.mk 100 [(99, 1)] [(101, 1)]) in
  JsMap.get 98 (bidMap after) = Some 2
  /\ lastUpdateId after = Some 100%Z
  /\ lastUpdateId after <> Some (DepthUpdate.u first).
Proof.
  split; [reflexivity|]. split; [reflexivity|]. discriminate.
Qed.

(** C1, as amended.  The subscription has no desynchronised state: once
    the snapshot handler has set [hasSnapshot] no input clears it, and
    every [depthUpdate] received from then on is applied to the two maps,
    whatever its [U], with [lastUpdateId] left as it was. *)
Theorem synchronised_applies_every_event
  (s : Subscription) (e : DepthUpdate.t) (i : Input) :
  hasSnapshot s = true ->
  hasSnapshot (step s i) = true
  /\ (let s' := step s (WsMessage (DepthUpdateMsg e)) in
      bidMap s' = applyLevels (DepthUpdate.b e) (bidMap s)
      /\ askMap s' = applyLevels (DepthUpdate.a e) (askMap s)
      /\ lastUpdateId s' = lastUpdateId s).
Proof.
  intros H. split; [apply step_hasSnapshot; exact H|].
  destruct (onmessage_synchronised s e H) as (Eb & Ea & _ & _ & El & _).
  simpl step. repeat split; assumption.
Qed.

Lemma synchronised_applies_every_event_witness :
  let s := synchronise [] (Depth.mk 100 [(99, 1)] [(101, 1)]) in
  let e := depthUpdate 105 110 [(98, 5)] [] in
  hasSnapshot (step s (AnimationFrame 0)) = true
  /\ bidMap (step s (WsMessage (DepthUpdateMsg e)))
     = applyLevels (DepthUpdate.b e) (bidMap s).
Proof.
  intros s e.
  assert (H : hasSnapshot s = true) by reflexivity.
  destruct (synchronised_applies_every_event s e (AnimationFrame 0) H)
    as (H1 & H2 & _).
  split; [exact H1 | exact H2].
Defined.

(** C1 as stated fails: after the snapshot with [lastUpdateId = 100], the
    event [U = 105], [u = 110] does not meet [U <= lastUpdateId + 1]; the
    handler applies it all the same and the subscription goes on as
    before. *)
Lemma gapped_event_is_applied :
  let s := synchronise [] (Depth.mk 100 [(99, 1)] [(101, 1)]) in
  let e := depthUpdate 105 110 [(98, 5)] [] in
  let s' := step s (WsMessage (DepthUpdateMsg e)) in
  hasSnapshot s = true
  /\ lastUpdateId s = Some 100%Z
  /\ ~ (DepthUpdate.U e <= 100 + 1)%Z
  /\ JsMap.get 98 (bidMap s) = None
  /\ JsMap.get 98 (bidMap s') = Some 5
  /\ hasSnapshot s' = true.
Proof.
  split; [reflexivity|]. split; [reflexivity|]. split; [simpl; lia|].
  split; [reflexivity|]. split; reflexivity.
Qed.

(** * The emission throttle *)

(** C8, as amended.  At most one callback is queued at any time of a
    session.  When one or more events are received by a synchronised
    subscription with nothing queued, exactly one callback is queued after
    each of them; the next display tick runs [emitUpdate] once, on the book
    as it is after the last event, and delivers the one snapshot
    [emitUpdate] produces, or nothing when [emitUpdate] returns early;
    nothing is queued afterwards. *)
Theorem throttle_coalesces
  (s : Subscription) (e : DepthUpdate.t) (rest : list DepthUpdate.t)
  (now : Z) :
  hasSnapshot s = true -> processing s = false ->
  animationFrames s = 0%nat ->
  let events := e :: rest in
  let s' := receive s events in
  (forall inputs, (animationFrames (run subscribe inputs) <= 1)%nat)
  /\ (forall n, (0 < n)%nat ->
        animationFrames (receive s (firstn n events)) = 1%nat)
  /\ animationFrames s' = 1%nat
  /\ bidMap s' = bidMap (fold_left processEvent events s)
  /\ askMap s' = askMap (fold_left processEvent events s)
  /\ delivered (animationFrame now s') =
     delivered s ++
     match emitUpdate now (bidMap s') (askMap s') with
     | Some snapshot => [snapshot]
     | None => []
     end
  /\ animationFrames (animationFrame now s') = 0%nat
  /\ processing (animationFrame now s') = false.
Proof.
  intros H P F events s'.
  assert (T : throttleInv s) by (unfold throttleInv; rewrite P; exact F).
  assert (Q : forall es, es <> [] ->
                animationFrames (receive s es) = 1%nat
                /\ processing (receive s es) = true).
  { intros es Hes.
    destruct (receive_synchronised es s H T) as (_ & T' & _ & _ & _ & P').
    specialize (P' Hes). unfold throttleInv in T'. rewrite P' in T'. auto. }
  destruct (receive_synchronised events s H T) as (_ & _ & Eb & Ea & Ed & _).
  destruct (Q events) as [F' P']; [discriminate|].
  fold s' in Eb, Ea, Ed, F', P'.
  split; [|split; [|split; [|split; [|split]]]]; auto.
  - intros inputs.
    assert (T0 : throttleInv (run subscribe inputs))
      by (apply run_throttleInv; reflexivity).
    unfold throttleInv in T0. rewrite T0.
    destruct (processing (run subscribe inputs)); lia.
  - intros n Hn. apply Q. destruct n; [lia|]. discriminate.
  - unfold animationFrame. rewrite F'. simpl. rewrite Ed.
    destruct (emitUpdate now (bidMap s') (askMap s'));
      [|rewrite app_nil_r]; repeat split.
Qed.

Lemma throttle_coalesces_witness :
  let s := synchronisedAt [(99, 1)] [(101, 1)] in
  let s' := receive s [depthUpdate 101 101 [(98, 1)] [];
                       depthUpdate 102 102 [] [(103, 2)];
                       depthUpdate 103 103 [(99, 0)] []] in
  animationFrames s' = 1%nat
  /\ exists snapshot,
       delivered (animationFrame 7 s') = [snapshot]
       /\ midPrice snapshot == 99.5.
Proof.
  intros s s'.
  destruct (throttle_coalesces s
              (depthUpdate 101 101 [(98, 1)] [])
              [depthUpdate 102 102 [] [(103, 2)];
               depthUpdate 103 103 [(99, 0)] []] 7
              eq_refl eq_refl eq_refl)
    as (_ & _ & H1 & _ & _ & H2 & _).
  split; [exact H1|].
  eexists. split; [exact H2 | reflexivity].
Defined.

(** C8 as stated fails: one event that removes the only ask level is
    followed by a display tick that delivers nothing, where the claim has
    exactly one view delivered. *)
Lemma throttle_delivers_nothing_on_empty_side :
  let s := synchronisedAt [(99, 1)] [(101, 1)] in
  let s' := receive s [depthUpdate 101 101 [] [(101, 0)]] in
  animationFrames s' = 1%nat
  /\ delivered (animationFrame 7 s') = delivered s
  /\ length (delivered (animationFrame 7 s')) <> S (length (delivered s)).
Proof.
  split; [reflexivity|]. split; [reflexivity|]. discriminate.
Qed.

(** * Further properties of [aggregateOrders] *)

Lemma fl_120 : fl 120 == 120.
Proof. vm_compute. reflexivity. Qed.

Lemma fold_distribute_far (anchor : Q) (m : JsMap.t) :
  (forall l, In l m -> inRange (bucketIndex (fst l) anchor) = false) ->
  forall bv, fold_left (distribute anchor) m bv = bv.
Proof.
  induction m as [|[p q] r IH]; intros H bv; auto.
  cbn [fold_left].
  assert (D : distribute anchor bv (p, q) = bv).
  { pose proof (H (p, q) (or_introl eq_refl)) as R. simpl in R.
    unfold distribute. rewrite R. reflexivity. }
  rewrite D. apply IH. intros l Hl. apply H. right; exact Hl.
Qed.

(** Rounding does not bring a level at distance 120 or more below 120:
    120 is a double. *)
Lemma far_level_out_of_range (p anchor : Q) :
  inject_Z (Z.of_nat VISUAL_BUCKETS) * AGGREGATION_BUCKET_SIZE
    <= Qabs (p - anchor) ->
  inRange (bucketIndex p anchor) = false.
Proof.
  intros H.
  assert (L : (Z.of_nat VISUAL_BUCKETS <= bucketIndex p anchor)%Z).
  { destruct (bucketIndex_bounds p anchor) as [_ Hhi].
    assert (F : 120 <= fl (Qabs (p - anchor))).
    { rewrite <- fl_120. apply fl_mono.
      unfold VISUAL_BUCKETS, AGGREGATION_BUCKET_SIZE in H.
      change (inject_Z (Z.of_nat 60)) with 60 in H. lra. }
    unfold AGGREGATION_BUCKET_SIZE in Hhi.
    assert (G : 59 < inject_Z (bucketIndex p anchor)) by lra.
    change 59 with (inject_Z 59) in G. rewrite <- Zlt_Qlt in G.
    unfold VISUAL_BUCKETS. lia. }
  unfold inRange. apply andb_false_iff. right. apply Z.ltb_ge. exact L.
Qed.

Lemma fsum_snoc (l : list Q) (x start : Q) :
  fsum (l ++ [x]) start = fl (fsum l start + x).
Proof. rewrite fsum_app. reflexivity. Qed.

(** The running total of bucket [i]: the volumes of the buckets up to [i],
    added one after the other. *)
Lemma aggregateOrders_total
  (rawOrders : JsMap.t) (isBid : bool) (anchor : Q) (i : nat) :
  (i < VISUAL_BUCKETS)%nat ->
  total (nth i (aggregateOrders rawOrders isBid anchor) noEntry) =
  fsum (map (bucketVolume anchor rawOrders) (seq 0 (S i))) 0.
Proof.
  induction i as [|i IH]; intros Hi.
  - destruct (aggregateOrders_nth rawOrders isBid anchor 0%nat Hi) as [_ Hq].
    unfold aggregateOrders in *.
    rewrite nth_buildResult_total_first by lia. rewrite Hq. reflexivity.
  - destruct (aggregateOrders_nth rawOrders isBid anchor (S i) Hi) as [_ Hq].
    rewrite (seq_S (S i) 0), map_app. cbn [map Nat.add]. rewrite fsum_snoc.
    rewrite <- IH by lia. unfold bucketVolume at 1. rewrite <- Hq.
    unfold aggregateOrders. apply nth_buildResult_total. lia.
Qed.

Lemma aggregateOrders_empty_total (isBid : bool) (anchor : Q) (i : nat) :
  (i < VISUAL_BUCKETS)%nat ->
  total (nth i (aggregateOrders [] isBid anchor) noEntry) == 0.
Proof.
  induction i as [|i IH]; intros Hi.
  - destruct (aggregateOrders_nth [] isBid anchor 0%nat Hi) as [_ Hq].
    unfold aggregateOrders in *.
    rewrite nth_buildResult_total_first by lia. rewrite Hq.
    vm_compute. reflexivity.
  - destruct (aggregateOrders_nth [] isBid anchor (S i) Hi) as [_ Hq].
    specialize (IH ltac:(lia)).
    unfold aggregateOrders in *.
    rewrite nth_buildResult_total by lia. rewrite Hq.
    cbn [levelsAt filter map fsum fold_left].
    transitivity (fl 0); [|apply fl_0]. apply fl_comp. rewrite IH.
    reflexivity.
Qed.

(** X1.  The cumulative total of bucket [i] is what [+=] makes of the
    volumes of the buckets [0] to [i], added in that order from 0, where
    the volume of a bucket is what [+=] makes of the quantities of the raw
    levels of that index, added in the order of the map: the total counts
    every level of index at most [i] once and no other level. *)
Theorem aggregateOrders_running_totals
  (rawOrders : JsMap.t) (isBid : bool) (anchor : Q) :
  forall i : nat, (i < VISUAL_BUCKETS)%nat ->
    let result := aggregateOrders rawOrders isBid anchor in
    total (nth i result noEntry) =
      fsum (map (bucketVolume anchor rawOrders) (seq 0 (S i))) 0
    /\ total (nth i result noEntry) =
       fsum (map quantity (firstn (S i) result)) 0.
Proof.
  intros i Hi result. split.
  - apply aggregateOrders_total; exact Hi.
  - subst result. rewrite aggregateOrders_total by exact Hi. f_equal.
    assert (Hlen : length (aggregateOrders rawOrders isBid anchor)
                   = VISUAL_BUCKETS) by apply buildResult_length.
    apply (nth_ext _ _ 0 0).
    + rewrite !length_map, length_seq, length_firstn. lia.
    + intros k Hk. rewrite length_map, length_seq in Hk.
      rewrite (nth_indep _ 0 (bucketVolume anchor rawOrders 0%nat))
        by (rewrite length_map, length_seq; exact Hk).
      rewrite map_nth, seq_nth by exact Hk. cbn [Nat.add].
      rewrite (nth_indep _ 0 (quantity noEntry))
        by (rewrite length_map, length_firstn; lia).
      rewrite map_nth, nth_firstn.
      assert (B : (k <? S i)%nat = true) by (apply Nat.ltb_lt; exact Hk).
      rewrite B.
      destruct (aggregateOrders_nth rawOrders isBid anchor k ltac:(lia))
        as [_ Hq].
      rewrite Hq. reflexivity.
Qed.

Lemma aggregateOrders_running_totals_witness :
  total (nth 2 (aggregateOrders [(99, 1); (95, 3); (300, 7); (97.5, 2)]
                  true 100) noEntry) == 6.
Proof.
  assert (L : (2 < VISUAL_BUCKETS)%nat) by (unfold VISUAL_BUCKETS; lia).
  destruct (aggregateOrders_running_totals
              [(99, 1); (95, 3); (300, 7); (97.5, 2)] true 100 2%nat L)
    as [H _].
  rewrite H. vm_compute. reflexivity.
Defined.

(** X2.  The result of [aggregateOrders] depends on the map only through
    the quantities that go to each bucket, in the order the map yields
    them: two maps that give every bucket the same quantities in the same
    order give the same result, whatever the order of the levels of
    different buckets among each other. *)
Theorem aggregateOrders_insertion_order
  (m1 m2 : JsMap.t) (isBid : bool) (anchor : Q) :
  (forall i : nat, (i < VISUAL_BUCKETS)%nat ->
     map snd (levelsAt anchor i m1) = map snd (levelsAt anchor i m2)) ->
  aggregateOrders m1 isBid anchor = aggregateOrders m2 isBid anchor.
Proof.
  intros H. unfold aggregateOrders. f_equal.
  apply (nth_ext _ _ 0 0).
  - rewrite !bucketVolumesOf_length. reflexivity.
  - intros i Hi. rewrite bucketVolumesOf_length in Hi.
    rewrite !nth_bucketVolumesOf by exact Hi.
    rewrite (H i Hi). reflexivity.
Qed.

Lemma aggregateOrders_insertion_order_witness :
  aggregateOrders [(99, 1); (95, 3); (98.5, 2)] true 100
  = aggregateOrders [(95, 3); (99, 1); (98.5, 2)] true 100.
Proof.
  apply aggregateOrders_insertion_order.
  intros i Hi. unfold levelsAt. cbn [filter fst].
  assert (E99 : bucketIndex 99 100 = 0%Z) by (vm_compute; reflexivity).
  assert (E95 : bucketIndex 95 100 = 2%Z) by (vm_compute; reflexivity).
  assert (E98 : bucketIndex 98.5 100 = 0%Z) by (vm_compute; reflexivity).
  rewrite E99, E95, E98.
  destruct (0 =? Z.of_nat i)%Z eqn:E0; destruct (2 =? Z.of_nat i)%Z eqn:E2;
    try reflexivity.
  apply Z.eqb_eq in E0, E2. lia.
Defined.

(** X21.  Inside one bucket the order of the map can show in the last
    digit: the asks 100, 100.5 and 101 around the anchor 100 all go to
    bucket 0, and with the doubles 0.1, 0.2 and 0.3 for quantities the
    bucket holds the double 0.6000000000000001 when they come in this
    order and the double 0.6 when they come in the opposite order. *)
Theorem aggregateOrders_order_within_bucket :
  let m1 := [(100, fl 0.1); (100.5, fl 0.2); (101, fl 0.3)] in
  let m2 := [(101, fl 0.3); (100.5, fl 0.2); (100, fl 0.1)] in
  let q1 := quantity (nth 0 (aggregateOrders m1 false 100) noEntry) in
  let q2 := quantity (nth 0 (aggregateOrders m2 false 100) noEntry) in
  q2 == fl 0.6 /\ fl 0.6 < q1 /\ q1 - fl 0.6 < 1 # 1000000000000000.
Proof.
  vm_compute. repeat split.
Qed.

(** X3.  Levels at a distance of [VISUAL_BUCKETS * AGGREGATION_BUCKET_SIZE]
    (120) or more from the anchor are beyond the last bucket: a map that
    holds only such levels gives the result of the empty map, where every
    bucket has quantity 0 and total 0. *)
Theorem aggregateOrders_far_levels
  (rawOrders : JsMap.t) (isBid : bool) (anchor : Q) :
  (forall l, In l rawOrders ->
     inject_Z (Z.of_nat VISUAL_BUCKETS) * AGGREGATION_BUCKET_SIZE
       <= Qabs (fst l - anchor)) ->
  aggregateOrders rawOrders isBid anchor = aggregateOrders [] isBid anchor
  /\ forall i : nat, (i < VISUAL_BUCKETS)%nat ->
       quantity (nth i (aggregateOrders rawOrders isBid anchor) noEntry) == 0
       /\ total (nth i (aggregateOrders rawOrders isBid anchor) noEntry) == 0.
Proof.
  intros Hfar.
  assert (E : aggregateOrders rawOrders isBid anchor
              = aggregateOrders [] isBid anchor).
  { unfold aggregateOrders, bucketVolumesOf.
    rewrite fold_distribute_far; [reflexivity|].
    intros l Hl. apply far_level_out_of_range. apply Hfar; exact Hl. }
  split; [exact E|].
  intros i Hi. rewrite E.
  destruct (aggregateOrders_nth [] isBid anchor i Hi) as [_ Hq].
  split; [rewrite Hq; reflexivity|].
  apply aggregateOrders_empty_total; exact Hi.
Qed.

Lemma aggregateOrders_far_levels_witness :
  aggregateOrders [(220, 5); (-20, 1); (300, 2)] false 100
  = aggregateOrders [] false 100.
Proof.
  apply aggregateOrders_far_levels.
  intros l [<- | [<- | [<- | []]]]; vm_compute; discriminate.
Defined.



(** X23.  The index of a level is computed on doubles, and the rounding
    of the difference can decide the bucket.  The double 2.3 less the
    double 0.3 is just under 2: the level goes to bucket 0, where the
    decimals give index 1.  The double 6.02 less the double 0.02 rounds up
    to 6: the level goes to bucket 3, where the exact difference of the two
    doubles gives index 2.  The double 150.63 less the double 36.63 rounds
    up to 114: the level goes to bucket 57, not 56. *)
Theorem bucketIndex_on_doubles :
  (bucketIndex (fl 2.3) (fl 0.3) = 0%Z
   /\ Qfloor (Qabs (2.3 - 0.3) / AGGREGATION_BUCKET_SIZE) = 1%Z)
  /\ (bucketIndex (fl 6.02) (fl 0.02) = 3%Z
      /\ Qfloor (Qabs (fl 6.02 - fl 0.02) / AGGREGATION_BUCKET_SIZE) = 2%Z)
  /\ (bucketIndex (fl 36.63) (fl 150.63) = 57%Z
      /\ Qfloor (Qabs (fl 36.63 - fl 150.63) / AGGREGATION_BUCKET_SIZE)
         = 56%Z).
Proof.
  vm_compute. repeat split.
Qed.

(** * Further properties of [emitUpdate] *)

(** A snapshot that [emitUpdate] produces, spelt out. *)
Lemma emitUpdate_Some (now : Z) (bm am : JsMap.t) (v : OrderBookSnapshot) :
  emitUpdate now bm am = Some v ->
  exists bestBid bestAsk,
    isMaxKey bm bestBid /\ isMinKey am bestAsk /\ 0 < bestBid
    /\ v = {| timestamp := now;
              midPrice := (bestBid + bestAsk) / 2;
              bids := aggregateOrders bm true ((bestBid + bestAsk) / 2);
              asks := aggregateOrders am false ((bestBid + bestAsk) / 2) |}.
Proof.
  intros E.
  destruct bm as [|l0 bm']; [discriminate E|].
  destruct am as [|l1 am'];
    [rewrite emitUpdate_empty in E by auto; discriminate E|].
  set (bm := l0 :: bm') in *. set (am := l1 :: am') in *.
  destruct (emitUpdate_nonempty now bm am) as (bestAsk & Hmin & E');
    try (subst bm am; discriminate).
  rewrite E' in E.
  destruct (Qeq_bool (scanBestBid bm) 0) eqn:Z0; [discriminate E|].
  injection E as <-. exists (scanBestBid bm), bestAsk.
  destruct (scanBestBid_spec bm) as (Hge & Hmax & [H0 | Hin]).
  - rewrite H0 in Z0. discriminate Z0.
  - apply Qeq_bool_neq in Z0.
    assert (L : 0 < scanBestBid bm).
    { destruct (Qlt_le_dec 0 (scanBestBid bm)) as [L | L]; [exact L|].
      exfalso. apply Z0. lra. }
    split; [split; assumption|]. split; [exact Hmin|].
    split; [exact L | reflexivity].
Qed.

(** X5.  When no bid price is above an ask price, the mid price of a
    snapshot that [emitUpdate] produces is positive and lies between the two
    sides: no bid key is above it and no ask key below it. *)
Theorem emitUpdate_mid_between_sides
  (now : Z) (bm am : JsMap.t) (v : OrderBookSnapshot) :
  emitUpdate now bm am = Some v ->
  (forall kb ka, In kb (JsMap.keys bm) -> In ka (JsMap.keys am) -> kb <= ka) ->
  0 < midPrice v
  /\ (forall kb, In kb (JsMap.keys bm) -> kb <= midPrice v)
  /\ (forall ka, In ka (JsMap.keys am) -> midPrice v <= ka).
Proof.
  intros E Hx.
  destruct (emitUpdate_Some now bm am v E)
    as (bb & ba & [Hbin Hbmax] & [Hain Hamin] & Hpos & ->).
  cbn [midPrice].
  pose proof (Hx bb ba Hbin Hain) as Hle.
  assert (M : (bb + ba) / 2 == (bb + ba) * (1 # 2)) by (field; discriminate).
  split; [|split].
  - rewrite M. lra.
  - intros kb Hk. specialize (Hbmax kb Hk). rewrite M. lra.
  - intros ka Hk. specialize (Hamin ka Hk). rewrite M. lra.
Qed.

Lemma emitUpdate_mid_between_sides_witness :
  exists v,
    emitUpdate 0 [(99, 1); (97, 4)] [(105, 1); (101, 3)] = Some v
    /\ 0 < midPrice v
    /\ (forall kb, In kb (JsMap.keys [(99, 1); (97, 4)]) -> kb <= midPrice v).
Proof.
  eexists. split; [reflexivity|].
  match goal with
  | |- 0 < midPrice ?v /\ _ =>
      destruct (emitUpdate_mid_between_sides 0
                  [(99, 1); (97, 4)] [(105, 1); (101, 3)] v eq_refl)
        as (H1 & H2 & _)
  end.
  - intros kb ka [<- | [<- | []]] [<- | [<- | []]]; vm_compute; discriminate.
  - split; [exact H1 | exact H2].
Defined.

(** * Further properties of [processEvent] *)

(** X6.  On a store, a change of non-zero quantity [q] for price [p] that no
    later change of the same list is about leaves [p] with the entry [q]
    (insert or overwrite), and a price that no change of the list is about
    keeps the entry it had; this on the bid side and on the ask side. *)
Theorem processEvent_upserts
  (s : Subscription) (e : DepthUpdate.t) :
  JsMap.wf (bidMap s) -> JsMap.wf (askMap s) ->
  (forall before after p q, ~ q == 0 -> untouched p after ->
     (DepthUpdate.b e = Some (before ++ (p, q) :: after) ->
      JsMap.get p (bidMap (processEvent s e)) = Some q)
     /\ (DepthUpdate.a e = Some (before ++ (p, q) :: after) ->
         JsMap.get p (askMap (processEvent s e)) = Some q))
  /\ (forall k changes, untouched k changes ->
        (DepthUpdate.b e = Some changes ->
         JsMap.get k (bidMap (processEvent s e)) = JsMap.get k (bidMap s))
        /\ (DepthUpdate.a e = Some changes ->
            JsMap.get k (askMap (processEvent s e)) = JsMap.get k (askMap s))).
Proof.
  intros Wb Wa.
  assert (U : forall m before after p q,
             JsMap.wf m -> ~ q == 0 -> untouched p after ->
             JsMap.get p (applyLevels (Some (before ++ (p, q) :: after)) m)
             = Some q).
  { intros m before after p q W Hq Hafter. simpl.
    rewrite get_fold_applyLevel by assumption.
    rewrite overlay_app. change ((p, q) :: after) with ([(p, q)] ++ after).
    rewrite overlay_app, overlay_untouched by assumption.
    unfold overlay; simpl. rewrite Qeq_bool_refl.
    destruct (Qeq_bool q 0) eqn:E; [|reflexivity].
    apply Qeq_bool_eq in E. contradiction. }
  assert (F : forall m k changes,
             JsMap.wf m -> untouched k changes ->
             JsMap.get k (applyLevels (Some changes) m) = JsMap.get k m).
  { intros m k changes W Hk. simpl.
    rewrite get_fold_applyLevel by assumption.
    apply overlay_untouched; assumption. }
  split.
  - intros before after p q Hq Hafter.
    split; intros E; simpl; rewrite E; apply U; assumption.
  - intros k changes Hk.
    split; intros E; simpl; rewrite E; apply F; assumption.
Qed.

Lemma processEvent_upserts_witness :
  let s := synchronisedAt [(99, 1); (98, 2)] [(101, 2)] in
  let e := depthUpdate 101 102 [(97, 1); (99, 4); (98, 5)] [(101, 0)] in
  JsMap.get 99 (bidMap (processEvent s e)) = Some 4.
Proof.
  intros s e.
  assert (Wb : JsMap.wf (bidMap s)) by (simpl; auto).
  assert (Wa : JsMap.wf (askMap s)) by (simpl; auto).
  destruct (processEvent_upserts s e Wb Wa) as [Hup _].
  assert (Hq : ~ 4 == 0) by discriminate.
  assert (Hafter : untouched 99 [(98, 5)]).
  { intros l [<- | []]. reflexivity. }
  destruct (Hup [(97, 1)] [(98, 5)] 99 4 Hq Hafter) as [Hb _].
  apply Hb. reflexivity.
Defined.

(** * Further properties of the subscription *)

(** The state of a subscription that has only buffered. *)
Lemma run_buffers (inputs : list Input) :
  noSnapshot inputs ->
  forall buffer,
    run {| bidMap := JsMap.empty;
           askMap := JsMap.empty;
           eventBuffer := buffer;
           hasSnapshot := false;
           lastUpdateId := Some 0%Z;
           processing := false;
           animationFrames := 0%nat;
           delivered := [] |} inputs
    = {| bidMap := JsMap.empty;
         askMap := JsMap.empty;
         eventBuffer := buffer ++ depthUpdatesOf inputs;
         hasSnapshot := false;
         lastUpdateId := Some 0%Z;
         processing := false;
         animationFrames := 0%nat;
         delivered := [] |}.
Proof.
  unfold run, noSnapshot.
  induction inputs as [|i r IH]; intros H buffer.
  - simpl. rewrite app_nil_r. reflexivity.
  - assert (Hr : forall i', In i' r -> answered i' = false).
    { intros i' Hin. apply H. right; exact Hin. }
    assert (Hi : answered i = false) by (apply H; left; reflexivity).
    destruct i as [[e|] | data | body | | now]; cbn [fold_left step];
      try discriminate Hi.
    + simpl onmessage. rewrite (IH Hr). simpl. rewrite <- app_assoc.
      reflexivity.
    + simpl onmessage. apply (IH Hr).
    + apply (IH Hr).
    + unfold animationFrame. simpl. apply (IH Hr).
Qed.

(** X7.  Until the request of [fetchSnapshot] is answered the subscription
    only buffers: after any sequence of stream messages, rejected requests
    and display ticks both maps are still empty, nothing has been
    delivered, no callback is queued, [lastUpdateId] is still 0, and the
    buffer holds the [depthUpdate] events received, in arrival order. *)
Theorem before_snapshot_only_buffers (inputs : list Input) :
  noSnapshot inputs ->
  run subscribe inputs
  = {| bidMap := JsMap.empty;
       askMap := JsMap.empty;
       eventBuffer := depthUpdatesOf inputs;
       hasSnapshot := false;
       lastUpdateId := Some 0%Z;
       processing := false;
       animationFrames := 0%nat;
       delivered := [] |}.
Proof.
  intros H. apply (run_buffers inputs H []).
Qed.

Lemma before_snapshot_only_buffers_witness :
  let e1 := depthUpdate 90 95 [(99, 1)] [] in
  let e2 := depthUpdate 96 99 [] [(101, 2)] in
  eventBuffer
    (run subscribe
       [WsMessage (DepthUpdateMsg e1); AnimationFrame 3; WsMessage OtherMsg;
        SnapshotFailed; WsMessage (DepthUpdateMsg e2)])
  = [e1; e2].
Proof.
  intros e1 e2.
  rewrite before_snapshot_only_buffers; [reflexivity|].
  intros i [<- | [<- | [<- | [<- | [<- | []]]]]]; reflexivity.
Defined.

Lemma filter_newerThan_undefined (buffer : list DepthUpdate.t) :
  filter (newerThan None) buffer = [].
Proof.
  induction buffer as [|e r IH]; simpl; auto.
Qed.

(** X22.  An answer that is not the depth snapshot.  On a body that has
    the three fields [fetchSnapshot] does what it does on the depth
    snapshot.  On a body that has [bids] and [asks] and no [lastUpdateId]
    both lists are loaded and [hasSnapshot] is set, but no buffered event
    passes [e.u > undefined]: the buffer is dropped without replay.  On a
    body that lacks [bids] or [asks] the handler stops in its [catch]:
    [hasSnapshot], the buffer, the ask map and what has been delivered are
    as before, so the subscription goes on buffering; but [lastUpdateId]
    has been overwritten with the body's (undefined if it has none), and
    the bid map has taken the bids of a body that has some. *)
Theorem fetchSnapshot_other_body (data : DepthBody.t) (s : Subscription) :
  (forall lastUpdateId' bids' asks',
     data = DepthBody.mk (Some lastUpdateId') (Some bids') (Some asks') ->
     fetchSnapshotBody data s
     = fetchSnapshot (Depth.mk lastUpdateId' bids' asks') s)
  /\ (forall bids' asks',
        data = DepthBody.mk None (Some bids') (Some asks') ->
        fetchSnapshotBody data s
        = {| bidMap := loadLevels bids' (bidMap s);
             askMap := loadLevels asks' (askMap s);
             eventBuffer := [];
             hasSnapshot := true;
             lastUpdateId := None;
             processing := processing s;
             animationFrames := animationFrames s;
             delivered := delivered s |})
  /\ (DepthBody.bids data = None \/ DepthBody.asks data = None ->
      fetchSnapshotBody data s
      = {| bidMap :=
             match DepthBody.bids data with
             | Some bids' => loadLevels bids' (bidMap s)
             | None => bidMap s
             end;
           askMap := askMap s;
           eventBuffer := eventBuffer s;
           hasSnapshot := hasSnapshot s;
           lastUpdateId := DepthBody.lastUpdateId data;
           processing := processing s;
           animationFrames := animationFrames s;
           delivered := delivered s |}).
Proof.
  split; [|split].
  - intros id b a ->. reflexivity.
  - intros b a ->. unfold fetchSnapshotBody.
    cbn [DepthBody.bids DepthBody.asks DepthBody.lastUpdateId with_maps
         bidMap askMap eventBuffer hasSnapshot lastUpdateId processing
         animationFrames delivered].
    rewrite filter_newerThan_undefined. reflexivity.
  - destruct data as [id [b|] [a|]]; cbn [DepthBody.bids DepthBody.asks];
      intros [H | H]; try discriminate H; reflexivity.
Qed.

(** The body of an HTTP error, arriving after one buffered event. *)
Lemma fetchSnapshot_other_body_witness :
  let e1 := depthUpdate 90 95 [(99, 1)] [] in
  let s := run subscribe [WsMessage (DepthUpdateMsg e1);
                          SnapshotBody (DepthBody.mk None None None)] in
  hasSnapshot s = false /\ eventBuffer s = [e1] /\ lastUpdateId s = None.
Proof.
  intros e1 s. subst s. unfold run. cbn [fold_left step].
  destruct (fetchSnapshot_other_body (DepthBody.mk None None None)
              (onmessage (DepthUpdateMsg e1) subscribe)) as (_ & _ & H).
  rewrite H by (left; reflexivity).
  repeat split.
Defined.

(** X8.  The snapshot handler does not schedule an emission: right after
    the depth snapshot has been processed (buffer replayed) no callback is
    queued and nothing has been delivered, and a display tick at that point
    changes nothing, however full the book is. *)
Theorem snapshot_alone_emits_nothing
  (buffer : list DepthUpdate.t) (data : Depth.t) (now : Z) :
  let s := synchronise buffer data in
  animationFrames s = 0%nat /\ processing s = false /\ delivered s = []
  /\ animationFrame now s = s.
Proof.
  intros s. subst s. unfold synchronise.
  rewrite receive_buffers by reflexivity.
  unfold fetchSnapshot. cbn [bidMap askMap eventBuffer hasSnapshot
    lastUpdateId processing animationFrames delivered subscribe].
  match goal with
  | |- context [fold_left processEvent ?l ?s0] =>
      destruct (fold_processEvent_fields l s0)
        as (_ & E1 & E2 & E3 & E4 & E5);
      set (s2 := fold_left processEvent l s0) in *
  end.
  cbn [processing animationFrames delivered hasSnapshot lastUpdateId] in *.
  unfold animationFrame.
  cbn [bidMap askMap eventBuffer hasSnapshot lastUpdateId processing
       animationFrames delivered].
  rewrite E3, E4, E5. simpl. repeat split; reflexivity.
Qed.

Lemma delivered_frameCallback_length (now : Z) (s : Subscription) :
  (length (delivered (frameCallback now s)) <= S (length (delivered s)))%nat.
Proof.
  simpl. destruct (emitUpdate now (bidMap s) (askMap s)).
  - rewrite length_app. simpl. lia.
  - lia.
Qed.

Lemma delivered_step_length (s : Subscription) (i : Input) :
  throttleInv s ->
  (length (delivered (step s i))
   <= length (delivered s) + (if isTick i then 1 else 0))%nat.
Proof.
  intros T. destruct i as [[e|] | data | body | | now]; simpl; try lia.
  - destruct (hasSnapshot s); simpl; [|lia].
    destruct (processing s); simpl; lia.
  - unfold fetchSnapshot. simpl.
    match goal with
    | |- context [fold_left processEvent ?l ?s0] =>
        destruct (fold_processEvent_fields l s0) as (_ & _ & _ & _ & _ & E)
    end.
    rewrite E. simpl. lia.
  - destruct body as [id [b|] [a|]]; simpl; try lia.
    match goal with
    | |- context [fold_left processEvent ?l ?s0] =>
        destruct (fold_processEvent_fields l s0) as (_ & _ & _ & _ & _ & E)
    end.
    rewrite E. simpl. lia.
  - unfold animationFrame, throttleInv in *. rewrite T.
    destruct (processing s); simpl.
    + destruct (emitUpdate now (bidMap s) (askMap s)).
      * rewrite length_app. simpl. lia.
      * lia.
    + lia.
Qed.

(** X9.  The consumer is called at most once per display tick: in any
    session the number of snapshots delivered is at most the number of
    display ticks. *)
Theorem at_most_one_delivery_per_tick (inputs : list Input) :
  (length (delivered (run subscribe inputs)) <= ticksOf inputs)%nat.
Proof.
  assert (G : forall s, throttleInv s ->
            (length (delivered (run s inputs))
             <= length (delivered s) + ticksOf inputs)%nat).
  { unfold run, ticksOf.
    induction inputs as [|i r IH]; intros s T; simpl; [lia|].
    pose proof (delivered_step_length s i T) as Hs.
    pose proof (IH (step s i) (step_throttleInv s i T)) as Hr.
    destruct (isTick i); simpl in *; lia. }
  apply (G subscribe). reflexivity.
Qed.

Lemma emitUpdate_wellFormedView
  (now : Z) (bm am : JsMap.t) (v : OrderBookSnapshot) :
  positive bm -> positive am -> emitUpdate now bm am = Some v ->
  wellFormedView v.
Proof.
  intros Pb Pa E.
  destruct (emitUpdate_Some now bm am v E) as (bb & ba & _ & _ & _ & ->).
  set (mid := (bb + ba) / 2).
  assert (Nb : forall l, In l bm -> 0 <= snd l)
    by (intros l Hl; apply Qlt_le_weak; apply Pb; exact Hl).
  assert (Na : forall l, In l am -> 0 <= snd l)
    by (intros l Hl; apply Qlt_le_weak; apply Pa; exact Hl).
  destruct (aggregateOrders_nonneg bm true mid Nb) as [Qb Mb].
  destruct (aggregateOrders_nonneg am false mid Na) as [Qa Ma].
  unfold wellFormedView. cbn [bids asks midPrice].
  split; [apply buildResult_length|].
  split; [apply buildResult_length|].
  split; [|split; assumption].
  intros i Hi.
  destruct (aggregateOrders_nth bm true mid i Hi) as [Hpb _].
  destruct (aggregateOrders_nth am false mid i Hi) as [Hpa _].
  split; [exact Hpb|]. split; [exact Hpa|]. split; auto.
Qed.

Lemma runCallbacks_views (n : nat) (now : Z) :
  forall s, storePositive s -> Forall wellFormedView (delivered s) ->
    Forall wellFormedView (delivered (runCallbacks n now s)).
Proof.
  induction n as [|n IH]; intros s [Pb Pa] Hd; simpl; [exact Hd|].
  apply IH.
  - split; assumption.
  - simpl. destruct (emitUpdate now (bidMap s) (askMap s)) eqn:E; [|exact Hd].
    apply Forall_app. split; [exact Hd|].
    constructor; [|constructor].
    apply (emitUpdate_wellFormedView now (bidMap s) (askMap s)); assumption.
Qed.

Lemma step_views (s : Subscription) (i : Input) :
  storePositive s -> Forall wellFormedView (delivered s) ->
  Forall wellFormedView (delivered (step s i)).
Proof.
  intros P Hd. destruct i as [[e|] | data | body | | now]; simpl; auto.
  - destruct (hasSnapshot s); simpl; auto.
    destruct (processing s); simpl; auto.
  - unfold fetchSnapshot. simpl.
    match goal with
    | |- context [fold_left processEvent ?l ?s0] =>
        destruct (fold_processEvent_fields l s0) as (_ & _ & _ & _ & _ & E)
    end.
    rewrite E. exact Hd.
  - destruct body as [id [b|] [a|]]; simpl; auto.
    match goal with
    | |- context [fold_left processEvent ?l ?s0] =>
        destruct (fold_processEvent_fields l s0) as (_ & _ & _ & _ & _ & E)
    end.
    rewrite E. exact Hd.
  - unfold animationFrame. apply runCallbacks_views; assumption.
Qed.

Lemma run_views (inputs : list Input) :
  forall s, plausibleState s ->
    Forall wellFormedView (delivered s) ->
    Forall plausible inputs ->
    Forall wellFormedView (delivered (run s inputs)).
Proof.
  unfold run.
  induction inputs as [|i r IH]; intros s Ps Hd Hin; simpl; [exact Hd|].
  inversion Hin; subst.
  apply IH; auto.
  - apply step_plausibleState; assumption.
  - apply step_views; [apply Ps | exact Hd].
Qed.

Lemma run_subscribe_views (inputs : list Input) :
  Forall plausible inputs ->
  Forall wellFormedView (delivered (run subscribe inputs)).
Proof.
  intros H. apply (run_views inputs subscribe); [|constructor | exact H].
  split; [|constructor]. split; intros l [].
Qed.

(** X10.  On inputs as the exchange documents them (positive quantities in
    the depth snapshot, no negative quantity in a change list) every view
    delivered to the consumer in a session has 60 bid and 60 ask buckets,
    bucket [i] priced [midPrice - 2 i] on the bid side and [midPrice + 2 i]
    on the ask side, no negative bucket quantity, and cumulative totals that
    never decrease. *)
Theorem delivered_views_well_formed (inputs : list Input) :
  Forall plausible inputs ->
  Forall wellFormedView (delivered (run subscribe inputs)).
Proof.
  apply run_subscribe_views.
Qed.

Lemma delivered_views_well_formed_witness :
  let inputs :=
    [WsMessage (DepthUpdateMsg (depthUpdate 95 102 [(98, 2)] []));
     SnapshotArrived (Depth.mk 100 [(99, 1); (98, 7)] [(101, 1)]);
     WsMessage (DepthUpdateMsg (depthUpdate 103 104 [(99, 0)] [(102, 3)]));
     AnimationFrame 5] in
  length (delivered (run subscribe inputs)) = 1%nat
  /\ Forall wellFormedView (delivered (run subscribe inputs)).
Proof.
  intros inputs. split; [reflexivity|].
  apply delivered_views_well_formed.
  repeat constructor; simpl; each_level.
Defined.

(** * The depth snapshot in the book *)

Lemma get_app (k : Q) (m1 m2 : JsMap.t) :
  JsMap.get k (m1 ++ m2) =
  match JsMap.get k m1 with
  | Some v => Some v
  | None => JsMap.get k m2
  end.
Proof.
  induction m1 as [|[k0 v0] r IH]; simpl; auto.
  destruct (Qeq_bool k0 k); auto.
Qed.

Lemma set_absent (k v : Q) (m : JsMap.t) :
  JsMap.get k m = None -> JsMap.set k v m = m ++ [(k, v)].
Proof.
  induction m as [|[k0 v0] r IH]; simpl; auto.
  destruct (Qeq_bool k0 k); [discriminate|].
  intros H. rewrite IH by exact H. reflexivity.
Qed.

Lemma wf_app_absent (m r : JsMap.t) (k v : Q) :
  JsMap.wf (m ++ (k, v) :: r) -> JsMap.get k m = None.
Proof.
  induction m as [|[k0 v0] m' IH]; simpl; auto.
  intros [H0 W]. rewrite get_app in H0.
  destruct (JsMap.get k0 m'); [discriminate|].
  simpl in H0. destruct (Qeq_bool k k0) eqn:E; [discriminate|].
  rewrite Qeq_bool_comm, E. apply IH. exact W.
Qed.

Lemma loadLevels_distinct (items : list Level) :
  forall m, JsMap.wf (m ++ items) -> loadLevels items m = m ++ items.
Proof.
  unfold loadLevels.
  induction items as [|[k v] r IH]; intros m W; simpl.
  - rewrite app_nil_r. reflexivity.
  - rewrite set_absent by (eapply wf_app_absent; exact W).
    rewrite IH; rewrite <- app_assoc; [reflexivity | exact W].
Qed.

Lemma filter_stale (data : Depth.t) (buffer : list DepthUpdate.t) :
  Forall (stale data) buffer ->
  filter (fun e => (Depth.lastUpdateId data <? DepthUpdate.u e)%Z) buffer = [].
Proof.
  induction 1 as [|e r He Hr IH]; simpl; auto.
  unfold stale in He.
  destruct (Depth.lastUpdateId data <? DepthUpdate.u e)%Z eqn:E; auto.
  apply Z.ltb_lt in E. lia.
Qed.

(** X11.  When the lists of the depth snapshot have no repeated price and
    every buffered event is covered by the snapshot ([u <= lastUpdateId]),
    the book right after the snapshot handler is the snapshot itself: each
    side map holds the levels of its list, in the order of the list. *)
Theorem snapshot_is_the_book
  (buffer : list DepthUpdate.t) (data : Depth.t) :
  JsMap.wf (Depth.bids data) -> JsMap.wf (Depth.asks data) ->
  Forall (stale data) buffer ->
  bidMap (synchronise buffer data) = Depth.bids data
  /\ askMap (synchronise buffer data) = Depth.asks data.
Proof.
  intros Wb Wa Hs. unfold synchronise.
  rewrite receive_buffers by reflexivity.
  unfold fetchSnapshot. cbn [bidMap askMap eventBuffer hasSnapshot
    lastUpdateId processing animationFrames delivered subscribe app].
  rewrite (filter_stale data buffer Hs). cbn [fold_left bidMap askMap].
  rewrite !loadLevels_distinct by assumption. split; reflexivity.
Qed.

Lemma snapshot_is_the_book_witness :
  let data := Depth.mk 100 [(99, 1); (98, 7)] [(101, 1); (103, 2)] in
  bidMap (synchronise [depthUpdate 90 100 [(99, 5)] []] data)
  = [(99, 1); (98, 7)].
Proof.
  intros data.
  assert (Wb : JsMap.wf (Depth.bids data)) by (simpl; auto).
  assert (Wa : JsMap.wf (Depth.asks data)) by (simpl; auto).
  assert (Hs : Forall (stale data) [depthUpdate 90 100 [(99, 5)] []]).
  { constructor; [|constructor]. unfold stale; simpl; lia. }
  destruct (snapshot_is_the_book _ data Wb Wa Hs) as [Hb _].
  exact Hb.
Defined.

(** * Properties of [generateMockSnapshot] *)

Section MockSide.

Variable rnd : Random.
Variable isBid : bool.
Variable mid : Q.

Lemma mockSide_length (n : nat) :
  forall i cur k, length (mockSide rnd isBid mid n i cur k) = n.
Proof.
  induction n as [|n IH]; intros i cur k; simpl; auto.
Qed.

Lemma nth_mockSide (n : nat) :
  forall i cur k j, (j < n)%nat ->
    price (nth j (mockSide rnd isBid mid n i cur k) noEntry) =
      bucketPrice isBid mid (i + j)
    /\ quantity (nth j (mockSide rnd isBid mid n i cur k) noEntry) =
      rnd (k + 2 * j)%nat * 5 + rnd (S (k + 2 * j)) * 10.
Proof.
  induction n as [|n IH]; intros i cur k j Hj; [lia|].
  destruct j as [|j]; cbn [mockSide nth].
  - cbn [price quantity]. rewrite Nat.mul_0_r, !Nat.add_0_r; auto.
  - replace (i + S j)%nat with (S i + j)%nat by lia.
    replace (k + 2 * S j)%nat with (S (S k) + 2 * j)%nat by lia.
    apply IH; lia.
Qed.

Lemma nth_mockSide_total (n : nat) :
  forall i cur k j, (S j < n)%nat ->
    total (nth (S j) (mockSide rnd isBid mid n i cur k) noEntry) =
    total (nth j (mockSide rnd isBid mid n i cur k) noEntry) +
    quantity (nth (S j) (mockSide rnd isBid mid n i cur k) noEntry).
Proof.
  induction n as [|n IH]; intros i cur k j Hj; [lia|].
  destruct j as [|j].
  - destruct n; [lia|]. reflexivity.
  - cbn [mockSide].
    change (nth (S (S j)) (?x :: ?l) noEntry) with (nth (S j) l noEntry).
    change (nth (S j) (?x :: ?l) noEntry) with (nth j l noEntry).
    apply IH; lia.
Qed.

Hypothesis rnd_unit : unitRandom rnd.

Lemma mock_quantity_bounds (k : nat) :
  0 <= rnd k * 5 + rnd (S k) * 10 /\ rnd k * 5 + rnd (S k) * 10 < 15.
Proof.
  destruct (rnd_unit k) as [A1 A2]. destruct (rnd_unit (S k)) as [B1 B2].
  split; lra.
Qed.

Lemma mockSide_monotone (cur : Q) (k : nat) :
  cumulativeMonotone (mockSide rnd isBid mid VISUAL_BUCKETS 0 cur k).
Proof.
  intros i [Hi1 Hi2]. rewrite mockSide_length in Hi2.
  destruct i as [|j]; [lia|].
  replace (S j - 1)%nat with j by lia.
  rewrite nth_mockSide_total by lia.
  destruct (nth_mockSide VISUAL_BUCKETS 0 cur k (S j) Hi2) as [_ Hq].
  rewrite Hq.
  destruct (mock_quantity_bounds (k + 2 * S j)) as [H _]. lra.
Qed.

End MockSide.

Lemma mock_well_formed
  (rnd : Random) (now : Z) (prevSnapshot : option OrderBookSnapshot) :
  unitRandom rnd ->
  let v := generateMockSnapshot rnd now prevSnapshot in
  wellFormedView v
  /\ forall i : nat, (i < VISUAL_BUCKETS)%nat ->
       quantity (nth i (bids v) noEntry) < 15
       /\ quantity (nth i (asks v) noEntry) < 15.
Proof.
  intros R v. subst v. unfold generateMockSnapshot.
  destruct (mockMidPrice rnd prevSnapshot) as [mid k].
  cbn [bids asks midPrice]. unfold wellFormedView. cbn [bids asks midPrice].
  assert (B : forall isBid k' i, (i < VISUAL_BUCKETS)%nat ->
     price (nth i (mockSide rnd isBid mid VISUAL_BUCKETS 0 0 k') noEntry)
       = bucketPrice isBid mid i
     /\ 0 <= quantity
               (nth i (mockSide rnd isBid mid VISUAL_BUCKETS 0 0 k') noEntry)
     /\ quantity
          (nth i (mockSide rnd isBid mid VISUAL_BUCKETS 0 0 k') noEntry) < 15).
  { intros isBid k' i Hi.
    destruct (nth_mockSide rnd isBid mid VISUAL_BUCKETS 0 0 k' i Hi)
      as [Hp Hq].
    rewrite Hp, Hq. split; [reflexivity|].
    apply mock_quantity_bounds; exact R. }
  split.
  - split; [apply mockSide_length|]. split; [apply mockSide_length|].
    split; [|split; apply mockSide_monotone; exact R].
    intros i Hi.
    destruct (B true k i Hi) as (P1 & Q1 & _).
    destruct (B false (k + 2 * VISUAL_BUCKETS)%nat i Hi) as (P2 & Q2 & _).
    repeat split; assumption.
  - intros i Hi.
    destruct (B true k i Hi) as (_ & _ & Q1).
    destruct (B false (k + 2 * VISUAL_BUCKETS)%nat i Hi) as (_ & _ & Q2).
    split; assumption.
Qed.

(** X12.  When [Math.random] returns values in [[0, 1)], a mock snapshot
    meets what a live view meets (60 buckets a side on the price grid
    [midPrice -/+ 2 i], no negative quantity, non-decreasing totals), and
    every bucket quantity is below 15; this with or without a previous
    snapshot. *)
Theorem generateMockSnapshot_well_formed
  (rnd : Random) (now : Z) (prevSnapshot : option OrderBookSnapshot) :
  unitRandom rnd ->
  let v := generateMockSnapshot rnd now prevSnapshot in
  wellFormedView v
  /\ forall i : nat, (i < VISUAL_BUCKETS)%nat ->
       quantity (nth i (bids v) noEntry) < 15
       /\ quantity (nth i (asks v) noEntry) < 15.
Proof.
  apply mock_well_formed.
Qed.

Lemma generateMockSnapshot_well_formed_witness :
  wellFormedView
    (generateMockSnapshot (fun k => Z.of_nat (k mod 4) # 4) 7 None).
Proof.
  apply generateMockSnapshot_well_formed.
  intros k. pose proof (Nat.mod_upper_bound k 4 ltac:(discriminate)) as H.
  unfold Qle, Qlt; cbn [Qnum Qden]. split; lia.
Defined.

(** X13.  Without a previous snapshot the mock mid price is
    [INITIAL_PRICE] (96000).  With a previous snapshot of positive mid
    price, and [Math.random] in [[0, 1)], the new mid price is positive and
    differs from the previous one by at most 0.025 percent of it. *)
Theorem generateMockSnapshot_mid_price
  (rnd : Random) (now : Z) (prev : OrderBookSnapshot) :
  midPrice (generateMockSnapshot rnd now None) = INITIAL_PRICE
  /\ (unitRandom rnd -> 0 < midPrice prev ->
      let v := generateMockSnapshot rnd now (Some prev) in
      0 < midPrice v
      /\ Qabs (midPrice v - midPrice prev) <= midPrice prev * 0.00025).
Proof.
  split; [reflexivity|].
  intros R Hpos v. subst v.
  unfold generateMockSnapshot, mockMidPrice. cbn [midPrice].
  destruct (R 0%nat) as [R0 R1].
  set (r := rnd 0%nat) in *. set (pm := midPrice prev) in *.
  split.
  - nra.
  - apply Qabs_Qle_condition. split; nra.
Qed.

Lemma generateMockSnapshot_mid_price_witness :
  let prev := generateMockSnapshot (fun _ => 1 # 4) 0 None in
  let v := generateMockSnapshot (fun _ => 1 # 4) 1 (Some prev) in
  0 < midPrice v
  /\ Qabs (midPrice v - midPrice prev) <= midPrice prev * 0.00025.
Proof.
  intros prev v.
  destruct (generateMockSnapshot_mid_price (fun _ => 1 # 4) 1 prev) as [_ H].
  apply H.
  - intros k. split; reflexivity || (vm_compute; discriminate).
  - reflexivity.
Defined.

(** * Properties of the history loop *)

Lemma sliceLast_short {A : Type} (n : nat) (l : list A) :
  (length l <= n)%nat -> sliceLast n l = l.
Proof.
  intros H. unfold sliceLast.
  replace (length l - n)%nat with 0%nat by lia. reflexivity.
Qed.

Lemma sliceLast_length {A : Type} (n : nat) (l : list A) :
  length (sliceLast n l) = Nat.min n (length l).
Proof.
  unfold sliceLast. rewrite length_skipn. lia.
Qed.

Lemma sliceLast_snoc {A : Type} (n : nat) (l : list A) (x : A) :
  (0 < n)%nat -> sliceLast n (sliceLast n l ++ [x]) = sliceLast n (l ++ [x]).
Proof.
  intros Hn.
  destruct (Nat.le_gt_cases (length l) n) as [H | H].
  - rewrite (sliceLast_short n l H). reflexivity.
  - unfold sliceLast at 1 3.
    rewrite !length_app, sliceLast_length. simpl length.
    replace (Nat.min n (length l) + 1 - n)%nat with 1%nat by lia.
    unfold sliceLast.
    rewrite !skipn_app, length_skipn, skipn_skipn.
    replace (1 - (length l - (length l - n)))%nat with 0%nat by lia.
    replace (length l + 1 - n - length l)%nat with 0%nat by lia.
    replace (1 + (length l - n))%nat with (length l + 1 - n)%nat by lia.
    reflexivity.
Qed.

Lemma tick_window (snapshot : OrderBookSnapshot)
  (hist : list OrderBookSnapshot) :
  (length hist <= MAX_HISTORY)%nat ->
  tick false (Some snapshot) hist = sliceLast MAX_HISTORY (hist ++ [snapshot]).
Proof.
  intros H. unfold tick, sliceLast.
  rewrite length_app. simpl length.
  destruct (MAX_HISTORY <? length hist + 1)%nat eqn:E.
  - apply Nat.ltb_lt in E.
    replace (length hist + 1 - MAX_HISTORY)%nat with 1%nat by lia.
    reflexivity.
  - apply Nat.ltb_ge in E.
    replace (length hist + 1 - MAX_HISTORY)%nat with 0%nat by lia.
    reflexivity.
Qed.

Lemma ticks_window (hist latest : list OrderBookSnapshot) :
  (length hist <= MAX_HISTORY)%nat ->
  ticks latest hist = sliceLast MAX_HISTORY (hist ++ latest).
Proof.
  intros H. unfold ticks. induction latest as [|x xs IH] using rev_ind.
  - simpl. rewrite app_nil_r. symmetry. apply sliceLast_short. exact H.
  - rewrite fold_left_app. cbn [fold_left]. rewrite IH.
    rewrite tick_window
      by (rewrite sliceLast_length; apply Nat.le_min_l).
    rewrite sliceLast_snoc by (unfold MAX_HISTORY; lia).
    rewrite app_assoc. reflexivity.
Qed.

(** X14.  The history kept by the tick loop is a sliding window: started
    from a history of at most [MAX_HISTORY] (100) snapshots, after any
    number of unpaused ticks it is the last 100 of all snapshots appended so
    far, oldest first, and so never longer than 100; a paused tick, or one
    that finds no data yet, leaves it as it is. *)
Theorem tick_sliding_window
  (hist latest : list OrderBookSnapshot) :
  (length hist <= MAX_HISTORY)%nat ->
  ticks latest hist = sliceLast MAX_HISTORY (hist ++ latest)
  /\ (length (ticks latest hist) <= MAX_HISTORY)%nat
  /\ (forall data, tick true data hist = hist)
  /\ (forall paused, tick paused None hist = hist).
Proof.
  intros H.
  pose proof (ticks_window hist latest H) as W.
  split; [exact W|]. split.
  - rewrite W, sliceLast_length. apply Nat.le_min_l.
  - split; [reflexivity|]. intros [|]; reflexivity.
Qed.

Lemma tick_sliding_window_witness :
  let v := generateMockSnapshot (fun _ => 1 # 4) 0 None in
  let w := generateMockSnapshot (fun _ => 1 # 2) 1 None in
  ticks [w; w] (repeat v 99) = repeat v 98 ++ [w; w].
Proof.
  intros v w.
  assert (H : (length (repeat v 99) <= MAX_HISTORY)%nat)
    by (rewrite repeat_length; unfold MAX_HISTORY; lia).
  destruct (tick_sliding_window (repeat v 99) [w; w] H) as [E _].
  rewrite E. reflexivity.
Defined.

(** * Properties of the scene *)


Lemma displayHistory_length (history : list OrderBookSnapshot) :
  length (displayHistory history) = Nat.min DISPLAY_LIMIT (length history).
Proof.
  unfold displayHistory. rewrite length_rev. apply sliceLast_length.
Qed.



(** X16.  The bars of a well-formed view stand at the prices of its
    buckets: with the centre price [c], bar [i] of the bid wall is at
    [x = (price - c) * X_SCALE - 0.2] and bar [i] of the ask wall at
    [x = (price - c) * X_SCALE + 0.2], where [price] is the price of bucket
    [i]; two neighbouring bars of a wall are 0.1 apart, less than
    [BAR_WIDTH], so a wall shows no gap; and every bar is at least 0.1
    high. *)
Theorem bars_stand_at_bucket_prices
  (v : OrderBookSnapshot) (c : Q) (t i : nat) :
  wellFormedView v -> (S i < VISUAL_BUCKETS)%nat ->
  let bid j := barOf true c v t j (nth j (bids v) noEntry) in
  let ask j := barOf false c v t j (nth j (asks v) noEntry) in
  posX (bid i) == (price (nth i (bids v) noEntry) - c) * X_SCALE - 0.2
  /\ posX (ask i) == (price (nth i (asks v) noEntry) - c) * X_SCALE + 0.2
  /\ posX (bid i) - posX (bid (S i)) == 0.1
  /\ posX (ask (S i)) - posX (ask i) == 0.1
  /\ 0.1 < BAR_WIDTH
  /\ 0.1 <= scaleY (bid i) /\ 0.1 <= scaleY (ask i).
Proof.
  intros (_ & _ & Hgrid & _) Hi bid ask. subst bid ask.
  destruct (Hgrid i ltac:(lia)) as (Pb & Pa & _).
  rewrite Pb, Pa. cbn [posX scaleY barOf].
  unfold X_SCALE, AGGREGATION_BUCKET_SIZE, BAR_WIDTH.
  rewrite Nat2Z.inj_succ, <- Z.add_1_r, inject_Z_plus.
  change (inject_Z 1) with 1.
  set (iq := inject_Z (Z.of_nat i)).
  repeat split; try ring; try reflexivity; apply Q.le_max_l.
Qed.

Lemma bars_stand_at_bucket_prices_witness :
  let v := generateMockSnapshot (fun k => Z.of_nat (k mod 4) # 4) 7 None in
  posX (barOf true 95990 v 0 3 (nth 3 (bids v) noEntry))
  == (price (nth 3 (bids v) noEntry) - 95990) * X_SCALE - 0.2.
Proof.
  intros v.
  assert (W : wellFormedView v).
  { apply mock_well_formed.
    intros k. pose proof (Nat.mod_upper_bound k 4 ltac:(discriminate)) as H.
    unfold Qle, Qlt; cbn [Qnum Qden]. split; lia. }
  assert (L : (4 < VISUAL_BUCKETS)%nat) by (unfold VISUAL_BUCKETS; lia).
  destruct (bars_stand_at_bucket_prices v 95990 0 3 W L) as [H _].
  exact H.
Defined.

Lemma barsOfEntries_length (isBid : bool) (c : Q) (v : OrderBookSnapshot)
  (t : nat) (entries : list OrderEntry) :
  forall i, length (barsOfEntries isBid c v t entries i) = length entries.
Proof.
  induction entries as [|e r IH]; intros i; simpl; auto.
Qed.

(** While there is room for all of them, every entry gets its bar. *)
Lemma layoutEntries_room (isBid : bool) (c : Q) (v : OrderBookSnapshot)
  (t : nat) (entries : list OrderEntry) :
  forall i instances,
    (length instances + length entries <= MAX_INSTANCES)%nat ->
    layoutEntries isBid c v t entries i instances =
    instances ++ barsOfEntries isBid c v t entries i.
Proof.
  induction entries as [|e r IH]; intros i instances H.
  - simpl. rewrite app_nil_r. reflexivity.
  - cbn [layoutEntries barsOfEntries]. simpl length in H.
    assert (E : (MAX_INSTANCES <=? length instances)%nat = false)
      by (apply Nat.leb_gt; lia).
    rewrite E, IH by (rewrite length_app; simpl; lia).
    rewrite <- app_assoc. reflexivity.
Qed.

Lemma layoutSlices_room (isBid : bool) (c : Q)
  (slices : list OrderBookSnapshot) :
  Forall fullDepth slices ->
  forall t instances,
    (length instances + DEPTH_PER_SIDE * length slices <= MAX_INSTANCES)%nat ->
    layoutSlices isBid c slices t instances =
      instances ++ barsOfSlices isBid c slices t
    /\ length (barsOfSlices isBid c slices t)
       = (DEPTH_PER_SIDE * length slices)%nat.
Proof.
  induction 1 as [|v r [Hb Ha] Hr IH]; intros t instances H.
  - cbn [layoutSlices barsOfSlices length]. rewrite app_nil_r.
    split; [reflexivity | lia].
  - cbn [layoutSlices barsOfSlices]. simpl length in H.
    set (entries := if isBid then bids v else asks v).
    assert (Le : length entries = DEPTH_PER_SIDE)
      by (subst entries; destruct isBid; assumption).
    rewrite layoutEntries_room by lia.
    destruct (IH (S t)
                (instances ++ barsOfEntries isBid c v t entries 0))
      as [E L].
    { rewrite length_app, barsOfEntries_length. lia. }
    rewrite E, <- app_assoc. split; [reflexivity|].
    rewrite length_app, barsOfEntries_length, L. simpl length. lia.
Qed.

Lemma wellFormedView_fullDepth (v : OrderBookSnapshot) :
  wellFormedView v -> fullDepth v.
Proof.
  intros (Hb & Ha & _). split; assumption.
Qed.

Lemma Forall_displayHistory (P : OrderBookSnapshot -> Prop)
  (history : list OrderBookSnapshot) :
  Forall P history -> Forall P (displayHistory history).
Proof.
  intros H. unfold displayHistory, sliceLast.
  apply Forall_rev.
  rewrite <- (firstn_skipn (length history - DISPLAY_LIMIT) history) in H.
  apply Forall_app in H. tauto.
Qed.

Lemma layout_room
  (isBid : bool) (history : list OrderBookSnapshot) :
  Forall wellFormedView history ->
  layout isBid history =
    barsOfSlices isBid (centerPriceOf history) (displayHistory history) 0
  /\ length (layout isBid history)
     = (DEPTH_PER_SIDE * Nat.min DISPLAY_LIMIT (length history))%nat.
Proof.
  intros H. unfold layout.
  assert (F : Forall fullDepth (displayHistory history)).
  { apply Forall_displayHistory.
    eapply Forall_impl; [|exact H]. apply wellFormedView_fullDepth. }
  destruct (layoutSlices_room isBid (centerPriceOf history)
              (displayHistory history) F 0 []) as [E L].
  { rewrite displayHistory_length. simpl length.
    unfold MAX_INSTANCES. nia. }
  rewrite E. simpl app. split; [reflexivity|].
  rewrite L, displayHistory_length. reflexivity.
Qed.

(** X17.  The instance limit never cuts a wall of well-formed views: with
    at most [DISPLAY_LIMIT] (100) slices of [DEPTH_PER_SIDE] (60) bars the
    [MAX_INSTANCES] (6000) test of the layout is never met, every bucket of
    every displayed slice gets its bar, in slice order then bucket order,
    and the number of bars is 60 times the number of displayed slices. *)
Theorem layout_draws_every_bucket
  (isBid : bool) (history : list OrderBookSnapshot) :
  Forall wellFormedView history ->
  layout isBid history =
    barsOfSlices isBid (centerPriceOf history) (displayHistory history) 0
  /\ length (layout isBid history)
     = (DEPTH_PER_SIDE * Nat.min DISPLAY_LIMIT (length history))%nat.
Proof.
  apply layout_room.
Qed.

Lemma layout_draws_every_bucket_witness :
  let v := generateMockSnapshot (fun k => Z.of_nat (k mod 4) # 4) 7 None in
  length (layout true [v; v; v]) = 180%nat.
Proof.
  intros v.
  assert (W : wellFormedView v).
  { apply mock_well_formed.
    intros k. pose proof (Nat.mod_upper_bound k 4 ltac:(discriminate)) as H.
    unfold Qle, Qlt; cbn [Qnum Qden]. split; lia. }
  destruct (layout_draws_every_bucket true [v; v; v]) as [_ L].
  - repeat (constructor; [exact W|]). constructor.
  - rewrite L. reflexivity.
Defined.

(** * Display ticks and the book *)

Lemma sameData_fold_processEvent (events : list DepthUpdate.t) :
  forall s1 s2, sameData s1 s2 ->
    sameData (fold_left processEvent events s1)
             (fold_left processEvent events s2).
Proof.
  induction events as [|e r IH]; intros s1 s2 H; simpl; [exact H|].
  apply IH. destruct H as (Hb & Ha & He & Hh & Hl).
  unfold sameData; simpl. rewrite Hb, Ha. auto.
Qed.

Lemma sameData_step (s1 s2 : Subscription) (i : Input) :
  isTick i = false -> sameData s1 s2 -> sameData (step s1 i) (step s2 i).
Proof.
  intros Hi H. pose proof H as (Hb & Ha & He & Hh & Hl).
  destruct i as [[e|] | data | body | | now]; simpl in *; auto;
    [| | |discriminate].
  - rewrite <- Hh. destruct (hasSnapshot s1) eqn:E1; simpl.
    + assert (P : sameData (processEvent s1 e) (processEvent s2 e))
        by (apply (sameData_fold_processEvent [e]); exact H).
      destruct P as (Pb & Pa & Pe & Ph & Pl).
      destruct (processing s1), (processing s2);
        unfold sameData; simpl in *; repeat split; auto; congruence.
    + unfold sameData; simpl. rewrite He. repeat split; auto; congruence.
  - unfold fetchSnapshot.
    match goal with
    | |- sameData
           {| bidMap := bidMap (fold_left processEvent ?l1 ?a) |}
           {| bidMap := bidMap (fold_left processEvent ?l2 ?b) |} =>
        assert (P : sameData (fold_left processEvent l1 a)
                             (fold_left processEvent l2 b))
    end.
    { cbn [eventBuffer]. rewrite He.
      apply sameData_fold_processEvent.
      unfold sameData; simpl. rewrite Hb, Ha. auto. }
    destruct P as (Pb & Pa & _ & Ph & Pl).
    unfold sameData; simpl. auto.
  - destruct body as [id [b|] [a|]]; unfold fetchSnapshotBody; simpl.
    + match goal with
      | |- sameData
             {| bidMap := bidMap (fold_left processEvent ?l1 ?a0) |}
             {| bidMap := bidMap (fold_left processEvent ?l2 ?b0) |} =>
          assert (P : sameData (fold_left processEvent l1 a0)
                               (fold_left processEvent l2 b0))
      end.
      { rewrite He. apply sameData_fold_processEvent.
        unfold sameData; simpl. rewrite Hb, Ha. auto. }
      destruct P as (Pb & Pa & _ & Ph & Pl).
      unfold sameData; simpl. auto.
    + unfold sameData; simpl. rewrite Hb. auto.
    + unfold sameData; simpl. auto.
    + unfold sameData; simpl. auto.
Qed.

Lemma sameData_tick (s : Subscription) (now : Z) :
  sameData (step s (AnimationFrame now)) s.
Proof.
  simpl. unfold animationFrame.
  match goal with
  | |- sameData (runCallbacks ?n ?t ?s0) _ =>
      destruct (runCallbacks_fields n t s0) as (E1 & E2 & E3 & E4 & E5 & _)
  end.
  unfold sameData. rewrite E1, E2, E3, E4, E5. simpl. auto.
Qed.

Lemma sameData_trans (s1 s2 s3 : Subscription) :
  sameData s1 s2 -> sameData s2 s3 -> sameData s1 s3.
Proof.
  unfold sameData. intros (A1 & A2 & A3 & A4 & A5) (B1 & B2 & B3 & B4 & B5).
  repeat split; congruence.
Qed.

(** X18.  The display ticks have no effect on the data of a session: the
    book (both maps), the buffer, [hasSnapshot] and [lastUpdateId] after any
    sequence of inputs are what they are after the same sequence with the
    ticks left out; how often the display refreshes changes what is
    delivered, never what the book holds. *)
Theorem ticks_do_not_change_the_book (inputs : list Input) :
  sameData (run subscribe inputs) (run subscribe (withoutTicks inputs)).
Proof.
  assert (G : forall s1 s2, sameData s1 s2 ->
            sameData (run s1 inputs) (run s2 (withoutTicks inputs))).
  { unfold run, withoutTicks.
    induction inputs as [|i r IH]; intros s1 s2 H; cbn [fold_left filter].
    - exact H.
    - destruct (isTick i) eqn:E; cbn [negb fold_left].
      + apply IH. destruct i; try discriminate E.
        eapply sameData_trans; [apply sameData_tick | exact H].
      + apply IH. apply sameData_step; assumption. }
  apply G. repeat split.
Qed.

(** X19.  A click never selects a snapshot that is not displayed: whatever
    the depth of the click, a snapshot handed to [onSelectSlice] is one of
    the last [DISPLAY_LIMIT] (100) snapshots of the history. *)
Theorem handleClick_selects_displayed_only
  (z : Q) (history : list OrderBookSnapshot) (v : OrderBookSnapshot) :
  handleClick z history = Some v ->
  In v (sliceLast DISPLAY_LIMIT history) /\ In v history.
Proof.
  unfold handleClick. intros H.
  apply nth_error_In in H. apply in_rev in H.
  split; [exact H|].
  unfold sliceLast in H.
  rewrite <- (firstn_skipn (length history - DISPLAY_LIMIT) history).
  apply in_or_app. right; exact H.
Qed.

Lemma handleClick_selects_displayed_only_witness :
  let v := generateMockSnapshot (fun _ => 1 # 4) 0 None in
  let w := generateMockSnapshot (fun _ => 1 # 2) 1 None in
  In v [v; w; w].
Proof.
  intros v w.
  assert (H : handleClick (-1.7) [v; w; w] = Some v) by reflexivity.
  destruct (handleClick_selects_displayed_only (-1.7) [v; w; w] v H)
    as [_ Hin].
  exact Hin.
Defined.

(** * From the stream to the scene *)

Lemma Forall_sliceLast {A : Type} (P : A -> Prop) (n : nat) (l : list A) :
  Forall P l -> Forall P (sliceLast n l).
Proof.
  intros H. unfold sliceLast.
  rewrite <- (firstn_skipn (length l - n) l) in H.
  apply Forall_app in H. tauto.
Qed.

(** X20.  From the stream to the scene, on inputs as the exchange documents
    them: a history built by unpaused ticks from the empty history, each
    tick finding in [latestDataRef] a snapshot the subscription has
    delivered, holds at most 100 well-formed views, and the layout draws a
    bar for every bucket of every one of them, 60 per slice and side. *)
Theorem stream_to_scene
  (inputs : list Input) (latest : list OrderBookSnapshot) (isBid : bool) :
  Forall plausible inputs ->
  incl latest (delivered (run subscribe inputs)) ->
  let history := ticks latest [] in
  (length history <= MAX_HISTORY)%nat
  /\ Forall wellFormedView history
  /\ length (layout isBid history) = (DEPTH_PER_SIDE * length history)%nat.
Proof.
  intros Hin Hincl history.
  assert (W : history = sliceLast MAX_HISTORY latest).
  { subst history. rewrite ticks_window by (simpl; lia). reflexivity. }
  assert (L : (length history <= MAX_HISTORY)%nat).
  { rewrite W, sliceLast_length. apply Nat.le_min_l. }
  assert (F : Forall wellFormedView history).
  { rewrite W. apply Forall_sliceLast.
    pose proof (run_subscribe_views inputs Hin) as D.
    rewrite Forall_forall in *. intros v Hv. apply D. apply Hincl. exact Hv. }
  split; [exact L|]. split; [exact F|].
  destruct (layout_room isBid history F) as [_ E].
  rewrite E. unfold MAX_HISTORY, DISPLAY_LIMIT in *.
  rewrite Nat.min_r by lia. reflexivity.
Qed.

Lemma stream_to_scene_witness :
  let inputs :=
    [SnapshotArrived (Depth.mk 100 [(99, 1); (98, 7)] [(101, 1)]);
     WsMessage (DepthUpdateMsg (depthUpdate 103 104 [(99, 0)] [(102, 3)]));
     AnimationFrame 5] in
  let latest := delivered (run subscribe inputs) in
  length (layout true (ticks (latest ++ latest) []))
  = (DEPTH_PER_SIDE * 2)%nat.
Proof.
  intros inputs latest.
  assert (Hin : Forall plausible inputs)
    by (repeat constructor; simpl; each_level).
  assert (Hincl : incl (latest ++ latest) (delivered (run subscribe inputs))).
  { intros v Hv. apply in_app_or in Hv. destruct Hv; assumption. }
  destruct (stream_to_scene inputs (latest ++ latest) true Hin Hincl)
    as (_ & _ & E).
  rewrite E. reflexivity.
Defined.
